(** * peachfuzz "Blender": down-host registry, monitor worker, supervisor

    A shallow embedding of [src/blender.py], [src/portchecker.py] and
    [src/scan.py].  Python [int] is [Z], [str] is [string] (a byte string;
    host names and templates are ASCII), the [set] of [(team, host)]
    tuples is a [gset (Z * string)], [print] appends a line to an output
    log, a raised exception is an explicit result. *)

From stdpp Require Import gmap strings list sorting pretty.
From Stdlib Require Import ZArith Lia Ascii.

Local Open Scope Z_scope.

(** ** Python results *)

(** The two classes of exception the code distinguishes: what
    [except Exception] catches, and [KeyboardInterrupt], which it does
    not. *)
Inductive exn : Type :=
| Exception (msg : string)
| KeyboardInterrupt.

Inductive res (A : Type) : Type :=
| Ret (a : A)
| Raise (e : exn).
Arguments Ret {A} a.
Arguments Raise {A} e.

Global Instance exn_eq_dec : EqDecision exn.
Proof. solve_decision. Defined.

(** What the running code does that an observer can see, in order. *)
Inductive action : Type :=
| Print (line : string)              (* print(...) *)
| Connect (host : string) (port : Z) (* one sock.connect_ex((host, port)) *)
| CheckPorts (host : string) (ports : list Z) (* check_ports(host, ports) *)
| Wait (ms : Z)                      (* stop_event.wait / time.sleep, in ms *)
| Await (i : nat)                    (* futures[i].result(timeout=5) *)
| ExecutorShutdown.                  (* executor.shutdown(wait=True) *)

Global Instance action_eq_dec : EqDecision action.
Proof. solve_decision. Defined.

(** [str(team)] *)
Definition str (n : Z) : string := pretty n.

(** ** The down-host registry ([self.down_hosts], blender.py:35) *)

Abbreviation entry := (Z * string)%type.
Abbreviation registry := (gset (Z * string)).

Module Registry.

(** The two alert lines of blender.py:149 and blender.py:156. *)
Definition possible_reset (team : Z) (host : string) : string :=
  "TEAM " +:+ str team +:+ " - HOST " +:+ host +:+ " - POSSIBLE BOX RESET".

Definition recovered (team : Z) (host : string) : string :=
  "TEAM " +:+ str team +:+ " - HOST " +:+ host +:+ " - RECOVERED".

(** The body of [with self.down_hosts_lock:] in [check_host_continuous]
    (blender.py:143-156): the registry update for one probe result
    [open_port] of [host_team_tuple = (team, formatted_host)], with the
    lines it prints. *)
Definition report (team : Z) (formatted_host : string) (open_port : bool)
    (down_hosts : registry) : registry * list string :=
  let host_team_tuple := (team, formatted_host) in
  if negb open_port then
    if decide (host_team_tuple ∉ down_hosts) then
      (down_hosts ∪ {[ host_team_tuple ]},
       [possible_reset team formatted_host])
    else (down_hosts, [])
  else
    if decide (host_team_tuple ∈ down_hosts) then
      (down_hosts ∖ {[ host_team_tuple ]},
       [recovered team formatted_host])
    else (down_hosts, []).

(** One [report] call: team, host and the probe's answer. *)
Record call : Type := Call {
  call_team : Z;
  call_host : string;
  call_reachable : bool
}.

(** A sequence of [report] calls, oldest first, threading the registry
    and collecting the printed lines. *)
Fixpoint reports (calls : list call) (down_hosts : registry)
    : registry * list string :=
  match calls with
  | [] => (down_hosts, [])
  | c :: calls' =>
      let '(d, out) :=
        report (call_team c) (call_host c) (call_reachable c) down_hosts in
      let '(d', out') := reports calls' d in
      (d', out ++ out')
  end.

(** The reachability value of the most recent call for [(team, host)]
    in [calls], if there is one. *)
Fixpoint last_reachable (team : Z) (host : string) (calls : list call)
    : option bool :=
  match calls with
  | [] => None
  | c :: calls' =>
      match last_reachable team host calls' with
      | Some b => Some b
      | None =>
          if decide ((call_team c, call_host c) = (team, host))
          then Some (call_reachable c) else None
      end
  end.

(** [self.down_hosts.clear()] (blender.py:221) *)
Definition clear (down_hosts : registry) : registry := ∅.

End Registry.

(** ** Python strings *)

Module PyStr.

(** [s[i]]: a character, or IndexError.  Only non-negative indices
    occur in the code below. *)
Definition getitem (s : string) (i : nat) : res ascii :=
  match String.get i s with
  | Some c => Ret c
  | None => Raise (Exception "string index out of range")
  end.

(** [s[n:]] *)
Fixpoint slice_from (n : nat) (s : string) : string :=
  match n, s with
  | O, _ => s
  | S n', String _ s' => slice_from n' s'
  | S _, EmptyString => EmptyString
  end.

(** [s += c] *)
Definition snoc (s : string) (c : ascii) : string :=
  s +:+ String c EmptyString.

(** ASCII white space as [str.isspace] has it. *)
Definition is_space (c : ascii) : bool :=
  let n := nat_of_ascii c in
  ((9 <=? n) && (n <=? 13) || (28 <=? n) && (n <=? 32))%nat.

Fixpoint lstrip (s : string) : string :=
  match s with
  | String c s' => if is_space c then lstrip s' else s
  | EmptyString => EmptyString
  end.

(** [s.strip()] *)
Definition strip (s : string) : string :=
  String.rev (lstrip (String.rev (lstrip s))).

(** What [str.format] gives: the text, an exception, or nothing the
    model says ([Unmodelled]: a replacement field with an attribute, an
    index, a conversion or a format specification). *)
Inductive formatted : Type :=
| Formatted (text : string)
| FormatError (e : exn)
| Unmodelled.

(** A field name made of decimal digits, or empty, is a positional
    index; [decimal] is its value. *)
Fixpoint all_digits (s : string) : bool :=
  match s with
  | EmptyString => true
  | String c s' => bool_decide (is_Some (Ascii.is_nat c)) && all_digits s'
  end.

Fixpoint decimal (acc : Z) (s : string) : Z :=
  match s with
  | EmptyString => acc
  | String c s' => decimal (10 * acc + Z.of_nat (default O (Ascii.is_nat c))) s'
  end.

(** The characters that end the name inside a replacement field. *)
Definition ends_name (c : ascii) : bool :=
  bool_decide (c ∈ ["."; "["; "!"; ":"]%char).

(** [str.format] called with the one keyword argument
    [placeholder = team]: literal text is copied, a doubled brace is an
    escaped brace, [{placeholder}] is replaced by [str(team)], a field
    with a number or nothing in it is an IndexError (there is no
    positional argument), a field with another name is a KeyError, and
    a lone brace is a ValueError.  [field] is [None] in literal text and
    holds the field text read so far inside braces. *)
Fixpoint format_go (placeholder : string) (team : Z)
    (field : option string) (s : string) : formatted :=
  let cons (c : ascii) (r : formatted) :=
    match r with Formatted t => Formatted (String c t) | _ => r end in
  match field, s with
  | None, EmptyString => Formatted EmptyString
  | None, String c s' =>
      if decide (c = "{"%char) then
        match s' with
        | EmptyString =>
            FormatError (Exception "Single '{' encountered in format string")
        | String c' s'' =>
            if decide (c' = "{"%char)
            then cons c (format_go placeholder team None s'')
            else format_go placeholder team (Some EmptyString) s'
        end
      else if decide (c = "}"%char) then
        match s' with
        | EmptyString =>
            FormatError (Exception "Single '}' encountered in format string")
        | String c' s'' =>
            if decide (c' = "}"%char)
            then cons c (format_go placeholder team None s'')
            else FormatError
                   (Exception "Single '}' encountered in format string")
        end
      else cons c (format_go placeholder team None s')
  | Some name, EmptyString =>
      FormatError (Exception "expected '}' before end of string")
  | Some name, String c s' =>
      if decide (c = "}"%char) then
        if all_digits name then
          FormatError
            (Exception ("Replacement index " +:+ str (decimal 0 name) +:+
                        " out of range for positional args tuple"))
        else if decide (name = placeholder) then
          match format_go placeholder team None s' with
          | Formatted t => Formatted (str team +:+ t)
          | r => r
          end
        else FormatError (Exception ("'" +:+ name +:+ "'"))
      else if decide (c = "{"%char) then
        FormatError (Exception "unexpected '{' in field name")
      else if ends_name c then Unmodelled
      else format_go placeholder team (Some (snoc name c)) s'
  end.

(** [pattern.format] with the keyword argument [placeholder = team]
    (blender.py:31, blender.py:139). *)
Definition format (pattern placeholder : string) (team : Z) : formatted :=
  format_go placeholder team None pattern.

(** Whether the character [c] occurs in [s]. *)
Fixpoint occurs (c : ascii) (s : string) : bool :=
  match s with
  | EmptyString => false
  | String c' s' => bool_decide (c' = c) || occurs c s'
  end.

(** Literal text of a template: no brace in it. *)
Definition brace_free (s : string) : bool :=
  negb (occurs "{" s) && negb (occurs "}" s).

(** A placeholder name that [str.format] looks up as a keyword: not a
    number, and free of braces and of the characters that end a name. *)
Fixpoint plain (s : string) : bool :=
  match s with
  | EmptyString => true
  | String c s' =>
      negb (bool_decide (c = "{"%char)) && negb (bool_decide (c = "}"%char))
      && negb (ends_name c) && plain s'
  end.

Definition keyword (placeholder : string) : bool :=
  plain placeholder && negb (all_digits placeholder).

(** The placeholder token as it stands in a template: [{placeholder}]. *)
Definition token (placeholder : string) : string :=
  "{" +:+ placeholder +:+ "}".

End PyStr.

(** ** [Blender.unformat] (blender.py:103-127) *)

Module Unformat.
Import PyStr.

(** The line printed by the handler at blender.py:126. *)
Definition error_line (e : exn) : string :=
  "Error unformatting string: " +:+
  match e with Exception m => m | KeyboardInterrupt => EmptyString end.

(** The inner loop, blender.py:119-122: [while z != x], copying the
    pattern from index [j].  The result is the string built so far and
    whether the loop ended ([Ret]) or indexing the pattern raised.
    [None] only when [fuel] runs out. *)
Fixpoint inner (fuel : nat) (host_pattern : string) (x : ascii)
    (j : nat) (z : ascii) (unformatted_string : string)
    : option (string * res unit) :=
  match fuel with
  | O => None
  | S fuel' =>
      if decide (z ≠ x) then
        let unformatted_string := snoc unformatted_string z in
        let j := S j in
        match getitem host_pattern j with
        | Raise e => Some (unformatted_string, Raise e)
        | Ret z => inner fuel' host_pattern x j z unformatted_string
        end
      else Some (unformatted_string, Ret ())
  end.

(** The outer loop, blender.py:108-124, inside the [try].  The result
    is [unformatted_string], the lines printed by [print(x)], and
    whether an exception reached the handler. *)
Fixpoint loop (fuel : nat) (host_pattern formatted_string format_string : string)
    (i : nat) (unformatted_string : string)
    : option (string * list string * res unit) :=
  match fuel with
  | O => None
  | S fuel' =>
      if decide (i < String.length formatted_string)%nat then
        match getitem formatted_string i with
        | Raise e => Some (unformatted_string, [], Raise e)
        | Ret x =>
        match getitem host_pattern i with
        | Raise e => Some (unformatted_string, [], Raise e)
        | Ret y =>
          if decide (x = y) then
            loop fuel' host_pattern formatted_string format_string
              (S i) (snoc unformatted_string x)
          else
            match getitem formatted_string
                    (i + String.length format_string) with
            | Raise e => Some (unformatted_string, [], Raise e)
            | Ret x =>
              let j := i in
              match getitem host_pattern j with
              | Raise e => Some (unformatted_string, [], Raise e)
              | Ret z =>
                let printed := [String x EmptyString] in
                match inner (S (String.length host_pattern))
                        host_pattern x j z unformatted_string with
                | None => None
                | Some (u, Raise e) => Some (u, printed, Raise e)
                | Some (u, Ret _) =>
                    Some (u +:+ slice_from (i + String.length format_string)
                                  formatted_string,
                          printed, Ret ())
                end
              end
            end
        end
        end
      else Some (unformatted_string, [], Ret ())
  end.

(** [self.unformat(formatted_string, format_string)] with
    [self.host_pattern = host_pattern]: the returned string and the
    lines printed.  An exception inside the loops is caught, reported
    and does not change what has been built. *)
Definition unformat (host_pattern formatted_string : string)
    (format_string : Z) : option (string * list string) :=
  let format_string := str format_string in
  match loop (S (String.length formatted_string))
          host_pattern formatted_string format_string 0 EmptyString with
  | None => None
  | Some (u, printed, Ret _) => Some (u, printed)
  | Some (u, printed, Raise e) => Some (u, printed ++ [error_line e])
  end.

End Unformat.

(** ** [check_ports] (portchecker.py:9-23) *)

Module PortChecker.
Import PyStr.

(** What the body of the [try] does for one port: [connect_ex] returns
    a code (0 on success, an errno otherwise, a timeout included), or
    something in the body raises. *)
Inductive attempt : Type :=
| ConnectEx (result : Z)
| Fails (e : exn).

Global Instance attempt_eq_dec : EqDecision attempt.
Proof. solve_decision. Defined.

(** The network as the call sees it: the outcome of its [k]-th attempt,
    made on [(host, port)] with the given timeout. *)
Definition network : Type := nat → string → Z → Z → attempt.

(** The [for port in ports] loop from its [k]-th iteration on: the
    result and the connection attempts made, in order. *)
Fixpoint check_ports_from (net : network) (k : nat) (host : string)
    (ports : list Z) (timeout : Z) : res bool * list action :=
  match ports with
  | [] => (Ret false, [])
  | port :: ports' =>
      let tried := Connect (strip host) port in
      match net k (strip host) port timeout with
      | ConnectEx result =>
          if decide (result = 0) then (Ret true, [tried])
          else
            let '(r, tr) := check_ports_from net (S k) host ports' timeout in
            (r, tried :: tr)
      | Fails KeyboardInterrupt => (Raise KeyboardInterrupt, [tried])
      | Fails (Exception _) =>
          let '(r, tr) := check_ports_from net (S k) host ports' timeout in
          (r, tried :: tr)
      end
  end.

(** [check_ports(host, ports, timeout=3)] *)
Definition check_ports (net : network) (host : string) (ports : list Z)
    (timeout : Z) : res bool * list action :=
  check_ports_from net 0 host ports timeout.

Definition default_timeout : Z := 3.

(** The index of the first port of [ports] whose attempt connects,
    counting attempts from [k]. *)
Fixpoint first_open (net : network) (k : nat) (host : string)
    (ports : list Z) (timeout : Z) : option nat :=
  match ports with
  | [] => None
  | port :: ports' =>
      if decide (net k (strip host) port timeout = ConnectEx 0) then Some O
      else S <$> first_open net (S k) host ports' timeout
  end.

End PortChecker.

(** ** The monitor worker, [Blender.check_host_continuous]
       (blender.py:129-170) *)

Module Worker.

(** [list(range(start, stop))] *)
Definition range (start stop : Z) : list Z :=
  (λ i : nat, start + Z.of_nat i) <$> seq 0 (Z.to_nat (stop - start)).

(** What a worker is started with: its inventory entry
    [host_ports_pair = (host, ports)], and [self.teams] and
    [self.placeholder]. *)
Record worker : Type := {
  host : string;
  ports : list Z;
  teams : list Z;
  placeholder : string
}.

(** Where the worker stands in its code. *)
Inductive pc : Type :=
| AtWhile                 (* the test of [while], line 133 *)
| AtFor (rest : list Z)   (* the head of [for team], line 135, teams left *)
| AtWait01                (* [self.stop_event.wait(0.1)], line 159 *)
| AtWait1                 (* [self.stop_event.wait(1)], line 167 *)
| Done (r : res unit)     (* returned, or an exception left the function *)
| OutOfModel.             (* the template is one [PyStr.format] leaves out *)

Record state : Type := {
  at_pc : pc;
  stop_event : bool;        (* self.stop_event.is_set() *)
  down_hosts : registry;    (* self.down_hosts *)
  out : list action
}.

Definition goto (p : pc) (st : state) : state :=
  {| at_pc := p; stop_event := stop_event st;
     down_hosts := down_hosts st; out := out st |}.

Definition emit (a : list action) (st : state) : state :=
  {| at_pc := at_pc st; stop_event := stop_event st;
     down_hosts := down_hosts st; out := out st ++ a |}.

(** [self.stop_event.set()], done by the supervisor at any moment. *)
Definition set_stop (st : state) : state :=
  {| at_pc := at_pc st; stop_event := true;
     down_hosts := down_hosts st; out := out st |}.

(** The line printed at blender.py:165. *)
Definition error_line (w : worker) (msg : string) : string :=
  "Error checking host " +:+ host w +:+ ": " +:+ msg.

(** An exception raised inside the [try]: [except Exception] prints and
    goes to the one-second wait; anything else leaves the function. *)
Definition handle (w : worker) (e : exn) (st : state) : state :=
  match e with
  | Exception msg => goto AtWait1 (emit [Print (error_line w msg)] st)
  | KeyboardInterrupt => goto (Done (Raise KeyboardInterrupt)) st
  end.

(** One step of the worker.  [probe] is what the call
    [check_ports(formatted_host, ports)] does if this step makes it. *)
Definition step (w : worker) (probe : res bool) (st : state) : state :=
  match at_pc st with
  | AtWhile =>
      if stop_event st then goto (Done (Ret ())) st
      else goto (AtFor (teams w)) st
  | AtFor [] => goto AtWait01 st
  | AtFor (team :: rest) =>
      if stop_event st then goto AtWait01 st
      else
        match PyStr.format (host w) (placeholder w) team with
        | PyStr.Unmodelled => goto OutOfModel st
        | PyStr.FormatError e => handle w e st
        | PyStr.Formatted formatted_host =>
            let st := emit [CheckPorts formatted_host (ports w)] st in
            match probe with
            | Raise e => handle w e st
            | Ret open_port =>
                let '(d, lines) :=
                  Registry.report team formatted_host open_port
                    (down_hosts st) in
                {| at_pc := AtFor rest; stop_event := stop_event st;
                   down_hosts := d; out := out st ++ (Print <$> lines) |}
            end
        end
  | AtWait01 =>
      let st := emit [Wait 100] st in
      if stop_event st then goto (Done (Ret ())) st else goto AtWhile st
  | AtWait1 =>
      let st := emit [Wait 1000] st in
      if stop_event st then goto (Done (Ret ())) st else goto AtWhile st
  | Done _ | OutOfModel => st
  end.

(** What happens around the worker: it takes a step, or the supervisor
    sets the stop event. *)
Inductive input : Type :=
| Step (probe : res bool)
| SetStop.

Definition react (w : worker) (i : input) (st : state) : state :=
  match i with
  | Step probe => step w probe st
  | SetStop => set_stop st
  end.

Definition run (w : worker) (inputs : list input) (st : state) : state :=
  foldl (λ st i, react w i st) st inputs.

(** How many of the inputs are steps of the worker. *)
Fixpoint steps (inputs : list input) : nat :=
  match inputs with
  | [] => O
  | Step _ :: inputs' => S (steps inputs')
  | SetStop :: inputs' => steps inputs'
  end.

(** A worker that has seen the stop event at the head of [for]: [n]
    counts the steps it has taken since. *)
Definition stopping (o : list action) (d : registry) (rest : list Z)
    (n : nat) (st : state) : Prop :=
  stop_event st = true ∧ down_hosts st = d ∧
  match n with
  | O => at_pc st = AtFor rest ∧ out st = o
  | S O => at_pc st = AtWait01 ∧ out st = o
  | _ => at_pc st = Done (Ret ()) ∧ out st = o ++ [Wait 100]
  end.

(** The worker as [executor.submit] starts it. *)
Definition start (stop : bool) (d : registry) : state :=
  {| at_pc := AtWhile; stop_event := stop; down_hosts := d; out := [] |}.

(** [self.check_host_continuous(host_ports_pair)] run from its start
    on the registry [d], as far as [inputs] take it. *)
Definition check_host_continuous (w : worker) (inputs : list input)
    (d : registry) : state :=
  run w inputs (start false d).

(** [self.teams], blender.py:22 *)
Definition config_teams (teams_start teams_end : Z) : list Z :=
  range teams_start (teams_end + 1).

End Worker.

(** ** Snapshots of the registry: the three status listings *)

Module Snapshot.

(** Python's order on [(team, host)] tuples: teams first, then hosts
    character by character. *)
Definition entry_le (a b : entry) : Prop :=
  a.1 < b.1 ∨ (a.1 = b.1 ∧ String.le a.2 b.2).

Global Instance entry_le_dec : RelDecision entry_le.
Proof. intros a b. unfold entry_le. apply _. Defined.

(** [sorted(self.down_hosts)] *)
Definition sorted (down_hosts : registry) : list entry :=
  merge_sort entry_le (elements down_hosts).

Definition nl : string := String (ascii_of_nat 10) EmptyString.

(** [c * n] for a one-character string *)
Fixpoint times (c : ascii) (n : nat) : string :=
  match n with O => EmptyString | S n' => String c (times c n') end.

(** [len(self.down_hosts)] as it is printed *)
Definition len (down_hosts : registry) : string :=
  str (Z.of_nat (size down_hosts)).

(** The line of one entry, blender.py:186, 259 and 282. *)
Definition entry_line (e : entry) : string :=
  "  TEAM " +:+ str e.1 +:+ " - " +:+ e.2.

(** The reporter's digest, the body of [with self.down_hosts_lock:] in
    [report_down_hosts] (blender.py:182-189). *)
Definition digest (timestamp : string) (down_hosts : registry) : list string :=
  if decide (down_hosts ≠ ∅) then
    [nl +:+ "=== STATUS REPORT [" +:+ timestamp +:+ "]: " +:+
       len down_hosts +:+ " hosts currently down ==="]
    ++ (entry_line <$> sorted down_hosts)
    ++ [times "=" 50]
  else
    [nl +:+ "=== STATUS REPORT [" +:+ timestamp +:+ "]: All hosts are UP ==="].

(** The supervisor's interim block (blender.py:255-259). *)
Definition interim (down_hosts : registry) : list string :=
  if decide (down_hosts ≠ ∅) then
    ["---------- HOSTS DOWN STATUS ----------"]
    ++ (entry_line <$> sorted down_hosts)
  else [].

(** The final status at shutdown (blender.py:278-282). *)
Definition final (down_hosts : registry) : list string :=
  if decide (down_hosts ≠ ∅) then
    [nl +:+ "FINAL STATUS: " +:+ len down_hosts +:+
       " hosts were down at shutdown:"]
    ++ (entry_line <$> sorted down_hosts)
  else [].

End Snapshot.

(** ** The worker pool: [ThreadPoolExecutor] as [reset_check] uses it *)

Module Executor.

(** The units [reset_check] submits. *)
Inductive task : Type :=
| CheckHost (host_ports_pair : string * list Z) (* self.check_host_continuous *)
| Reporter.                                     (* self.report_down_hosts *)

Global Instance task_eq_dec : EqDecision task.
Proof. solve_decision. Defined.

(** A pool whose tasks all keep running, as the monitoring loops do:
    the tasks that got a thread and the tasks waiting for one, both in
    submission order. *)
Record executor : Type := {
  max_workers : Z;
  running : list task;
  waiting : list task
}.

(** [ThreadPoolExecutor(max_workers=n)] *)
Definition new (n : Z) : res executor :=
  if decide (n ≤ 0)
  then Raise (Exception "max_workers must be greater than 0")
  else Ret {| max_workers := n; running := []; waiting := [] |}.

(** [executor.submit(task)]: a new thread while fewer than
    [max_workers] exist, the queue otherwise. *)
Definition submit (t : task) (e : executor) : executor :=
  if decide (Z.of_nat (length (running e)) < max_workers e)
  then {| max_workers := max_workers e;
          running := running e ++ [t]; waiting := waiting e |}
  else {| max_workers := max_workers e;
          running := running e; waiting := waiting e ++ [t] |}.

(** While the pool has room nothing waits. *)
Definition roomy (n : nat) (e : executor) : Prop :=
  waiting e = [] ∧ Z.of_nat (length (running e) + n) ≤ max_workers e.

(** [self.max_workers], blender.py:30: the configured value of
    [execution.max_workers], 4 when the key is absent. *)
Definition config_max_workers (configured : option Z) : Z :=
  default 4 configured.

(** blender.py:227-236: the pool is created, one [check_host_continuous]
    is submitted per inventory entry, then the reporter. *)
Definition launch (configured : option Z)
    (host_ports_pairs : list (string * list Z)) : res executor :=
  match new (config_max_workers configured + 1) with
  | Raise e => Raise e
  | Ret executor =>
      let executor :=
        foldl (λ e pair, submit (CheckHost pair) e) executor host_ports_pairs in
      Ret (submit Reporter executor)
  end.

End Executor.

(** ** The supervisor: the polling loop of [reset_check] and
       [_shutdown_threads] (blender.py:230-292) *)

Module Supervisor.

(** A future as the supervisor sees it: [f.done()] and [f.result()]. *)
Inductive future : Type :=
| Pending
| Finished (r : res unit).

Definition done (f : future) : bool :=
  match f with Finished _ => true | Pending => false end.

(** What one pass of [while True] meets: the futures when [f.done()] is
    asked, the registry when the lock is taken, and whether the
    operator's interrupt arrives during [time.sleep(30)]. *)
Record poll : Type := {
  futures : list future;
  down : registry;
  interrupt : bool
}.

(** blender.py:248-252: [future.result()] of each finished future;
    [except Exception] prints, a KeyboardInterrupt passes through. *)
Fixpoint thread_errors (finished : list future) : list action * res unit :=
  match finished with
  | [] => ([], Ret ())
  | Finished (Raise (Exception msg)) :: fs =>
      let '(o, r) := thread_errors fs in
      (Print ("Thread error: " +:+ msg) :: o, r)
  | Finished (Raise KeyboardInterrupt) :: _ => ([], Raise KeyboardInterrupt)
  | _ :: fs => thread_errors fs
  end.

(** One pass of the body of [while True] (blender.py:243-260). *)
Definition poll_once (p : poll) : list action * res unit :=
  let finished_futures := filter (λ f, done f = true) (futures p) in
  let '(o1, r1) :=
    if decide (finished_futures ≠ []) then
      let '(o, r) := thread_errors finished_futures in
      (Print ("Warning: " +:+ str (Z.of_nat (length finished_futures)) +:+
              " threads finished unexpectedly") :: o, r)
    else ([], Ret ()) in
  match r1 with
  | Raise e => (o1, Raise e)
  | Ret _ =>
      let o := o1 ++ (Print <$> Snapshot.interim (down p)) ++ [Wait 30000] in
      if interrupt p then (o, Raise KeyboardInterrupt) else (o, Ret ())
  end.

(** How [future.result(timeout=5)] ends at shutdown. *)
Inductive join : Type :=
| Joined (r : res unit)
| TimedOut.

(** blender.py:286-290, from future number [i]. *)
Fixpoint await_all (i : nat) (joins : list join) : list action * res unit :=
  match joins with
  | [] => ([], Ret ())
  | j :: js =>
      let shutdown_error msg :=
        Print ("Thread " +:+ str (Z.of_nat (i + 1)) +:+
               " shutdown error: " +:+ msg) in
      match j with
      | Joined (Raise KeyboardInterrupt) => ([Await i], Raise KeyboardInterrupt)
      | Joined (Ret _) =>
          let '(o, r) := await_all (S i) js in (Await i :: o, r)
      | Joined (Raise (Exception msg)) =>
          let '(o, r) := await_all (S i) js in
          (Await i :: shutdown_error msg :: o, r)
      | TimedOut =>
          let '(o, r) := await_all (S i) js in
          (Await i :: shutdown_error EmptyString :: o, r)
      end
  end.

Inductive phase : Type :=
| Running               (* inside [while True] *)
| Stopped (r : res unit). (* [reset_check] returned or raised *)

Record state : Type := {
  at_phase : phase;
  stop_event : bool;
  out : list action
}.

(** What the shutdown meets: the registry when the lock is taken and
    how each future's bounded join ends. *)
Record shutdown : Type := {
  final_down : registry;
  joins : list join
}.

(** [self._shutdown_threads(futures, reason)] (blender.py:270-292); the
    stop event is set before anything is awaited. *)
Definition _shutdown_threads (sh : shutdown) (reason : string)
    : list action * res unit :=
  let o1 :=
    [Print ("Stopping all monitoring threads due to: " +:+ reason)]
    ++ (Print <$> Snapshot.final (final_down sh))
    ++ [Print "Waiting for threads to complete..."] in
  let '(o2, r) := await_all 0 (joins sh) in
  match r with
  | Raise e => (o1 ++ o2, Raise e)
  | Ret _ =>
      (o1 ++ o2 ++ [Print "All threads stopped. Exiting gracefully..."], Ret ())
  end.

(** The [except KeyboardInterrupt] and [finally] clauses
    (blender.py:262-268). *)
Definition interrupted (sh : shutdown) (st : state) : state :=
  let '(o, r) := _shutdown_threads sh "User interruption" in
  {| at_phase := Stopped r;
     stop_event := true;
     out := out st
            ++ [Print (Snapshot.nl +:+ "Reset check stopped by user (Ctrl+C)")]
            ++ o ++ [ExecutorShutdown] |}.

(** The polling loop over the passes [polls]; when they run out with no
    interrupt the supervisor is still in the loop. *)
Fixpoint monitor (polls : list poll) (sh : shutdown) (st : state) : state :=
  match polls with
  | [] => st
  | p :: polls' =>
      let '(o, r) := poll_once p in
      let st := {| at_phase := at_phase st; stop_event := stop_event st;
                   out := out st ++ o |} in
      match r with
      | Ret _ => monitor polls' sh st
      | Raise KeyboardInterrupt => interrupted sh st
      | Raise e =>
          {| at_phase := Stopped (Raise e); stop_event := stop_event st;
             out := out st ++ [ExecutorShutdown] |}
      end
  end.

(** A pass in which no interrupt arrives: none from the operator and
    none re-raised by a finished future. *)
Definition uninterrupted (p : poll) : Prop :=
  interrupt p = false ∧ Finished (Raise KeyboardInterrupt) ∉ futures p.

(** The futures awaited, in order, among the actions [o]. *)
Fixpoint awaited (o : list action) : list nat :=
  match o with
  | [] => []
  | Await i :: o' => i :: awaited o'
  | _ :: o' => awaited o'
  end.

(** The supervisor entering the loop: the stop event has been cleared
    (blender.py:217). *)
Definition started : state :=
  {| at_phase := Running; stop_event := false; out := [] |}.

(** [self.reset_check()] from the [try] on (blender.py:230-268), the
    units submitted, through the passes [polls]. *)
Definition reset_check (polls : list poll) (sh : shutdown) : state :=
  monitor polls sh started.

End Supervisor.

(** ** The discovery calls (scan.py) *)

Module Scan.
Import PyStr.

(** The machine the scan runs on: [platform.system()] and whether the
    file [./scanning/rustscan-<suffix>] exists. *)
Record machine : Type := {
  system : string;
  binary_exists : bool
}.

(** The [suffixes] table, scan.py:14-18. *)
Definition suffixes (sys_name : string) : option string :=
  if decide (sys_name = "Windows") then Some "windows.exe"
  else if decide (sys_name = "Linux") then Some "linux"
  else if decide (sys_name = "Darwin") then Some "macos"
  else None.

(** [get_rustscan_binary()] (scan.py:12-28): the path as [str] renders
    it, or NotImplementedError, or FileNotFoundError. *)
Definition get_rustscan_binary (m : machine) : res string :=
  let sys_name := system m in
  match suffixes sys_name with
  | None => Raise (Exception ("Platform not supported: " +:+ sys_name))
  | Some suffix =>
      let rustscan_path :=
        if decide (sys_name = "Windows")
        then "scanning\rustscan-" +:+ suffix
        else "scanning/rustscan-" +:+ suffix in
      if binary_exists m then Ret rustscan_path
      else Raise (Exception ("RustScan binary not found for " +:+ sys_name))
  end.

(** How [subprocess.run(cmd, ..., timeout=300)] ends. *)
Inductive completed : Type :=
| Completed (returncode : Z) (stdout stderr : string)
| TimeoutExpired
| RunError (msg : string).   (* any other Exception, e.g. OSError *)
(* The operator's interrupt during a run is left out: neither function
   catches it. *)

(** The external scan: the outcome of the [k]-th run, of command [cmd]. *)
Definition subprocess : Type := nat → list string → completed.

(** [sep.join(parts)] *)
Fixpoint join (sep : string) (parts : list string) : string :=
  match parts with
  | [] => EmptyString
  | [x] => x
  | x :: rest => x +:+ sep +:+ join sep rest
  end.

(** ASCII line boundaries of [str.splitlines]. *)
Definition is_linebreak (c : ascii) : bool :=
  let n := nat_of_ascii c in
  ((10 <=? n) && (n <=? 13) || (28 <=? n) && (n <=? 30))%nat.

(** [s.splitlines()], [cur] being the line read so far. *)
Fixpoint splitlines_go (cur : string) (s : string) : list string :=
  match s with
  | EmptyString => if decide (cur = EmptyString) then [] else [cur]
  | String c s' =>
      if is_linebreak c then
        match c, s' with
        | "013"%char, String "010"%char s'' =>
            cur :: splitlines_go EmptyString s''
        | _, _ => cur :: splitlines_go EmptyString s'
        end
      else splitlines_go (snoc cur c) s'
  end.

Definition splitlines (s : string) : list string :=
  splitlines_go EmptyString s.

(** [s.split(sep)] for a two-character separator [a b], [cur] being the
    part read so far. *)
Fixpoint split2_go (a b : ascii) (cur : string) (s : string) : list string :=
  match s with
  | EmptyString => [cur]
  | String c s' =>
      match s' with
      | String c' s'' =>
          if decide (c = a ∧ c' = b) then cur :: split2_go a b EmptyString s''
          else split2_go a b (snoc cur c) s'
      | EmptyString => [snoc cur c]
      end
  end.

(** [line.split('->')] *)
Definition split_arrow (line : string) : list string :=
  split2_go "-" ">" EmptyString line.

(** ['->' in line] *)
Definition has_arrow (line : string) : bool :=
  bool_decide (1 < length (split_arrow line))%nat.

(** scan.py:45-52: the hosts found in the scan's output. *)
Fixpoint parse_hosts (lines : list string) : list string :=
  match lines with
  | [] => []
  | line :: lines' =>
      let line := strip line in
      if has_arrow line then
        match split_arrow line with
        | part0 :: _ => strip part0 :: parse_hosts lines'
        | [] => parse_hosts lines'
        end
      else parse_hosts lines'
  end.

(** [f"Running: {' '.join(cmd)}"] *)
Definition running_line (cmd : list string) : string :=
  "Running: " +:+ join " " cmd.

(** The command line of scan.py:36. *)
Definition subnet_cmd (rustscan_path subnet : string) (ports : list Z)
    : list string :=
  [rustscan_path; "-a"; subnet; "-g"; "-p"; join "," (str <$> ports)].

(** The command line of scan.py:68. *)
Definition host_cmd (rustscan_path host : string) (ports : list Z)
    : list string :=
  [rustscan_path; "-a"; host; "-g";
   if decide (ports ≠ []) then join EmptyString (str <$> ports) else "--top"].

(** [scan_subnet(subnet, ports)] (scan.py:30-61): the hosts, or the
    exception that reaches the caller, and the lines printed. *)
Definition scan_subnet (m : machine) (run : subprocess) (subnet : string)
    (ports : list Z) : res (list string) * list string :=
  match get_rustscan_binary m with
  | Raise e => (Raise e, [])
  | Ret rustscan_path =>
      let cmd := subnet_cmd rustscan_path subnet ports in
      let printed := [running_line cmd] in
      match run O cmd with
      | Completed returncode stdout stderr =>
          if decide (returncode = 0)
          then (Ret (parse_hosts (splitlines stdout)), printed)
          else (Ret [], printed ++ ["Error: " +:+ stderr])
      | TimeoutExpired => (Ret [], printed ++ ["Scan timed out"])
      | RunError msg => (Ret [], printed ++ ["Error running scan: " +:+ msg])
      end
  end.

(** [int(p)] for an ASCII decimal literal: white space around it, a
    sign, and single underscores between digits are allowed; [None]
    stands for ValueError.  [after_digit] tells whether the character
    before was a digit. *)
Fixpoint digits (acc : Z) (after_digit : bool) (s : string) : option Z :=
  match s with
  | EmptyString => if after_digit then Some acc else None
  | String c s' =>
      match Ascii.is_nat c with
      | Some d => digits (10 * acc + Z.of_nat d) true s'
      | None =>
          if bool_decide (c = "_"%char) && after_digit
          then digits acc false s'
          else None
      end
  end.

Definition int (p : string) : option Z :=
  match strip p with
  | String "-" s => Z.opp <$> digits 0 false s
  | String "+" s => digits 0 false s
  | s => digits 0 false s
  end.

(** [s.split(',')] *)
Fixpoint split_comma_go (cur : string) (s : string) : list string :=
  match s with
  | EmptyString => [cur]
  | String c s' =>
      if decide (c = ","%char) then cur :: split_comma_go EmptyString s'
      else split_comma_go (snoc cur c) s'
  end.

Definition split_comma (s : string) : list string :=
  split_comma_go EmptyString s.

(** [s.startswith('[') and s.endswith(']')], then [s[1:-1]] *)
Definition bracketed (s : string) : option string :=
  match s with
  | String "[" rest =>
      match String.rev s with
      | String "]" _ =>
          Some (String.rev (slice_from 1 (String.rev rest)))
      | _ => None
      end
  | _ => None
  end.

(** scan.py:75-90: the entries one run's output adds to [results]. *)
Fixpoint parse_ports (lines : list string) (results : gmap string (list Z))
    : gmap string (list Z) :=
  match lines with
  | [] => results
  | line :: lines' =>
      let line := strip line in
      let results :=
        if has_arrow line then
          match split_arrow line with
          | [part0; part1] =>
              let host := strip part0 in
              let port_section := strip part1 in
              match bracketed port_section with
              | Some port_str =>
                  if decide (port_str ≠ EmptyString) then
                    match mapM int (split_comma port_str) with
                    | Some ports_found =>
                        <[host := merge_sort Z.le ports_found]> results
                    | None => results
                    end
                  else results
              | None => results
              end
          | _ => results
          end
        else results in
      parse_ports lines' results
  end.

(** The [for host in hosts] loop of [scan_hosts], from its [k]-th run. *)
Fixpoint scan_hosts_from (run : subprocess) (rustscan_path : string)
    (k : nat) (hosts : list string) (ports : list Z)
    (results : gmap string (list Z))
    : gmap string (list Z) * list string :=
  match hosts with
  | [] => (results, [])
  | host :: hosts' =>
      let cmd := host_cmd rustscan_path host ports in
      let '(results, printed) :=
        match run k cmd with
        | Completed returncode stdout stderr =>
            if decide (returncode = 0)
            then (parse_ports (splitlines stdout) results, [])
            else (results, [])
        | TimeoutExpired => (results, ["Scan timed out"])
        | RunError msg => (results, ["Error running scan: " +:+ msg])
        end in
      let '(results', printed') :=
        scan_hosts_from run rustscan_path (S k) hosts' ports results in
      (results', running_line cmd :: printed ++ printed')
  end.

(** [scan_hosts(hosts, ports)] (scan.py:64-95) *)
Definition scan_hosts (m : machine) (run : subprocess) (hosts : list string)
    (ports : list Z) : res (gmap string (list Z)) * list string :=
  match get_rustscan_binary m with
  | Raise e => (Raise e, [])
  | Ret rustscan_path =>
      let '(results, printed) :=
        scan_hosts_from run rustscan_path 0 hosts ports ∅ in
      (Ret results, printed)
  end.

(** A run that did not end with return code 0. *)
Definition failed (c : completed) : Prop :=
  match c with
  | Completed returncode _ _ => returncode ≠ 0
  | TimeoutExpired | RunError _ => True
  end.

End Scan.

(** ** The lock on the registry: interleaved critical sections

    Every access to [self.down_hosts] sits in a block
    [with self.down_hosts_lock:] (blender.py:143, 182, 220, 255, 278).
    Each run of such a block is an agent that moves through it one
    statement at a time; any agent that can move may move next. *)

Module Locking.

Inductive kind : Type :=
| Digest (timestamp : string)   (* report_down_hosts, lines 182-189 *)
| Interim                       (* reset_check, lines 255-259 *)
| Final.                        (* _shutdown_threads, lines 278-282 *)

(** The block an agent runs. *)
Inductive op : Type :=
| Report (team : Z) (formatted_host : string) (open_port : bool)
                                (* check_host_continuous, lines 143-156 *)
| Snap (k : kind)
| Clear.                        (* reset_check, lines 220-221 *)

(** Where an agent stands in its block. *)
Inductive at_ : Type :=
| Outside                  (* before [with]: the lock is not held *)
| Entered                  (* lock acquired *)
| Tested (b : bool)        (* the [if] on the registry evaluated *)
| Changed                  (* [add] or [remove] done *)
| Headed                   (* the heading line printed *)
| Listed (l : list entry)  (* [sorted(...)] evaluated, [l] left to print *)
| Closing                  (* at the end of the block *)
| Finished.                (* lock released *)

Record agent : Type := {
  code : op;
  pc : at_;
  printed : list string
}.

Record sys : Type := {
  lock : option nat;        (* the agent holding [down_hosts_lock] *)
  down_hosts : registry;
  agents : list agent
}.

Definition header (k : kind) (d : registry) : string :=
  match k with
  | Digest timestamp =>
      Snapshot.nl +:+ "=== STATUS REPORT [" +:+ timestamp +:+ "]: " +:+
      Snapshot.len d +:+ " hosts currently down ==="
  | Interim => "---------- HOSTS DOWN STATUS ----------"
  | Final =>
      Snapshot.nl +:+ "FINAL STATUS: " +:+ Snapshot.len d +:+
      " hosts were down at shutdown:"
  end.

Definition footer (k : kind) : list string :=
  match k with
  | Digest _ => [Snapshot.times "=" 50]
  | Interim | Final => []
  end.

Definition when_empty (k : kind) : list string :=
  match k with
  | Digest timestamp =>
      [Snapshot.nl +:+ "=== STATUS REPORT [" +:+ timestamp +:+
       "]: All hosts are UP ==="]
  | Interim | Final => []
  end.

(** The listing a block of kind [k] prints when it runs on the one
    registry value [d]. *)
Definition atomic (k : kind) (d : registry) : list string :=
  match k with
  | Digest timestamp => Snapshot.digest timestamp d
  | Interim => Snapshot.interim d
  | Final => Snapshot.final d
  end.

Definition move (p : at_) (lines : list string) (a : agent) : agent :=
  {| code := code a; pc := p; printed := printed a ++ lines |}.

(** One statement of agent [a] inside its block, on registry [d]. *)
Definition inside (a : agent) (d : registry) : agent * registry :=
  match code a, pc a with
  | Report team host open_port, Entered =>
      (move (Tested (if negb open_port
                     then bool_decide ((team, host) ∉ d)
                     else bool_decide ((team, host) ∈ d))) [] a, d)
  | Report team host open_port, Tested true =>
      (move Changed [] a,
       if negb open_port then d ∪ {[ (team, host) ]}
       else d ∖ {[ (team, host) ]})
  | Report team host open_port, Tested false => (move Closing [] a, d)
  | Report team host open_port, Changed =>
      (move Closing [if negb open_port
                     then Registry.possible_reset team host
                     else Registry.recovered team host] a, d)
  | Snap k, Entered => (move (Tested (bool_decide (d ≠ ∅))) [] a, d)
  | Snap k, Tested true => (move Headed [header k d] a, d)
  | Snap k, Tested false => (move Closing (when_empty k) a, d)
  | Snap k, Headed => (move (Listed (Snapshot.sorted d)) [] a, d)
  | Snap k, Listed (e :: l) => (move (Listed l) [Snapshot.entry_line e] a, d)
  | Snap k, Listed [] => (move Closing (footer k) a, d)
  | Clear, Entered => (move Closing [] a, Registry.clear d)
  | _, _ => (a, d)
  end.

(** Agent [i] moves if it can: it waits at [Outside] while another
    agent holds the lock. *)
Definition step (i : nat) (s : sys) : sys :=
  match agents s !! i with
  | None => s
  | Some a =>
      match pc a with
      | Outside =>
          match lock s with
          | None => {| lock := Some i; down_hosts := down_hosts s;
                       agents := <[i := move Entered [] a]> (agents s) |}
          | Some _ => s
          end
      | Finished => s
      | Closing => {| lock := None; down_hosts := down_hosts s;
                      agents := <[i := move Finished [] a]> (agents s) |}
      | _ =>
          let '(a', d') := inside a (down_hosts s) in
          {| lock := lock s; down_hosts := d';
             agents := <[i := a']> (agents s) |}
      end
  end.

(** A schedule names the agent that moves at each instant. *)
Definition run (schedule : list nat) (s : sys) : sys :=
  foldl (λ s i, step i s) s schedule.

(** Whether an agent at [p] is between acquiring and releasing. *)
Definition holds_lock (p : at_) : bool :=
  match p with
  | Outside | Finished => false
  | _ => true
  end.

(** The registry had the value [d] at some instant of the schedule. *)
Definition seen (s0 : sys) (schedule : list nat) (d : registry) : Prop :=
  ∃ n : nat, (n ≤ length schedule)%nat ∧
             down_hosts (run (take n schedule) s0) = d.

(** What a listing block of kind [k] has printed so far, seen against
    the registry value [d] it works on; once finished, against a value
    [history] knows. *)
Definition snap_ok (history : registry → Prop) (k : kind) (d : registry)
    (a : agent) : Prop :=
  match pc a with
  | Outside | Entered => printed a = []
  | Tested b => printed a = [] ∧ b = bool_decide (d ≠ ∅)
  | Changed => False
  | Headed => printed a = [header k d] ∧ d ≠ ∅
  | Listed l =>
      ∃ l0, Snapshot.sorted d = l0 ++ l ∧
            printed a = header k d :: (Snapshot.entry_line <$> l0) ∧ d ≠ ∅
  | Closing => printed a = atomic k d
  | Finished => ∃ d', history d' ∧ printed a = atomic k d'
  end.

(** The invariant of the lock: its holder is the one agent inside a
    block, and every listing block is consistent with the registry. *)
Record invariant (history : registry → Prop) (s : sys) : Prop := {
  inv_lock : ∀ i a, agents s !! i = Some a →
               (lock s = Some i ↔ holds_lock (pc a) = true);
  inv_snap : ∀ i a k, agents s !! i = Some a → code a = Snap k →
               snap_ok history k (down_hosts s) a
}.

(** All blocks not yet entered, the lock free. *)
Definition init (ops : list op) (d : registry) : sys :=
  {| lock := None; down_hosts := d;
     agents := (λ o, {| code := o; pc := Outside; printed := [] |}) <$> ops |}.

End Locking.

(** ** Reading a log of actions *)

Module Trace.

(** The hosts [check_ports] was called on, in order. *)
Fixpoint probed (o : list action) : list string :=
  match o with
  | [] => []
  | CheckPorts host _ :: o' => host :: probed o'
  | _ :: o' => probed o'
  end.

(** The lines printed, in order. *)
Fixpoint printed (o : list action) : list string :=
  match o with
  | [] => []
  | Print line :: o' => line :: printed o'
  | _ :: o' => printed o'
  end.

(** The calls of [report] a cycle makes when the probe of each team
    returns the answer at its place in [answers], [fmt] giving the host
    of a team. *)
Definition cycle_calls (fmt : Z → string) (teams : list Z)
    (answers : list bool) : list Registry.call :=
  zip_with (λ team open_port, Registry.Call team (fmt team) open_port)
    teams answers.

(** The teams left in the [for] loop of a worker are teams of its own. *)
Definition in_cycle (w : Worker.worker) (st : Worker.state) : Prop :=
  ∀ rest, Worker.at_pc st = Worker.AtFor rest → rest ⊆ Worker.teams w.

(** How many steps a worker at [p] that finds the stop event set takes
    until it has left [check_host_continuous]. *)
Definition steps_to_return (p : Worker.pc) : nat :=
  match p with
  | Worker.AtFor _ => 2
  | Worker.AtWhile | Worker.AtWait01 | Worker.AtWait1 => 1
  | Worker.Done _ | Worker.OutOfModel => 0
  end.

End Trace.

(** ** The report block under interleaving *)

Module ReportBlock.
Import Locking.





End ReportBlock.

(** ** The greppable output of the external scan *)

Module Greppable.
Import PyStr Scan.

(** Every character of [s] satisfies [p]. *)
Fixpoint all_chars (p : ascii → bool) (s : string) : bool :=
  match s with
  | EmptyString => true
  | String c s' => p c && all_chars p s'
  end.

(** A decimal digit. *)
Definition digit (c : ascii) : bool :=
  bool_decide (is_Some (Ascii.is_nat c)).

(** A character of a host as the scan prints it: no white space and no
    [>]. *)
Definition host_char (c : ascii) : bool :=
  negb (is_space c) && negb (bool_decide (c = ">"%char)).

(** One line of [rustscan -g]: [host -> [p1,p2,...]]. *)
Definition line (e : string * list Z) : string :=
  e.1 +:+ " -> [" +:+ join "," (str <$> e.2) +:+ "]".

(** The standard output of a run that reports [entries], one line
    each. *)
Fixpoint stdout (entries : list (string * list Z)) : string :=
  match entries with
  | [] => EmptyString
  | e :: entries' => line e +:+ Snapshot.nl +:+ stdout entries'
  end.

(** An entry the scan can print: a host that is not empty, and at
    least one port, none negative. *)
Definition well_formed (e : string * list Z) : Prop :=
  e.1 ≠ EmptyString ∧ all_chars host_char e.1 = true ∧
  e.2 ≠ [] ∧ Forall (λ p, 0 ≤ p) e.2.

(** The mapping [scan_hosts] builds from the entries, the later entry
    of a host replacing the earlier. *)
Definition record (results : gmap string (list Z))
    (entries : list (string * list Z)) : gmap string (list Z) :=
  foldl (λ r e, <[e.1 := merge_sort Z.le e.2]> r) results entries.

End Greppable.

(* ================================================================= *)
(** * Properties *)

(** ** The registry *)

Section registry_facts.
Import Registry.
Implicit Types (d : registry) (t : Z) (h : string).

Lemma report_elem_of t h b d t' h' :
  (t', h') ∈ (report t h b d).1 ↔
  if decide ((t, h) = (t', h')) then b = false else (t', h') ∈ d.
Proof.
  unfold report. destruct b; simpl; repeat case_decide; simpl;
    try set_solver; naive_solver.
Qed.

Lemma reports_elem_of cs d t h :
  (t, h) ∈ (reports cs d).1 ↔
  match last_reachable t h cs with
  | Some b => b = false
  | None => (t, h) ∈ d
  end.
Proof.
  revert d. induction cs as [|[ct ch cb] cs IH]; intros d; simpl; [done|].
  destruct (report ct ch cb d) as [d0 o0] eqn:Hr.
  specialize (IH d0). destruct (reports cs d0) as [d1 o1]. simpl in *.
  rewrite IH. destruct (last_reachable t h cs); [done|].
  replace d0 with (report ct ch cb d).1 by by rewrite Hr.
  rewrite report_elem_of. by case_decide.
Qed.
End registry_facts.

(** C1. On a registry that starts empty, after any sequence of report
    calls a pair (team, host) is a member exactly when the most recent
    call for that pair had reachable = false.  A report with
    reachable = false inserts an absent pair and prints exactly the one
    POSSIBLE BOX RESET line, and prints nothing for a pair already
    present; a report with reachable = true removes a present pair and
    prints exactly the one RECOVERED line, and changes and prints
    nothing for an absent pair. *)
Theorem report_sequence_membership :
  (∀ (calls : list Registry.call) (team : Z) (host : string),
      (team, host) ∈ (Registry.reports calls ∅).1 ↔
      Registry.last_reachable team host calls = Some false) ∧
  (∀ (d : registry) (team : Z) (host : string),
      (team, host) ∉ d →
      Registry.report team host false d =
        (d ∪ {[ (team, host) ]}, [Registry.possible_reset team host]) ∧
      (team, host) ∈ (Registry.report team host false d).1) ∧
  (∀ (d : registry) (team : Z) (host : string),
      (team, host) ∈ d →
      Registry.report team host false d = (d, [])) ∧
  (∀ (d : registry) (team : Z) (host : string),
      (team, host) ∈ d →
      Registry.report team host true d =
        (d ∖ {[ (team, host) ]}, [Registry.recovered team host]) ∧
      (team, host) ∉ (Registry.report team host true d).1) ∧
  (∀ (d : registry) (team : Z) (host : string),
      (team, host) ∉ d →
      Registry.report team host true d = (d, [])).
Proof.
  split_and!.
  - intros calls team host. rewrite reports_elem_of.
    destruct (Registry.last_reachable team host calls) as [[]|];
      [naive_solver..|]. set_solver.
  - intros d team host Hd. unfold Registry.report; simpl.
    rewrite decide_True by done. split; [done|]. set_solver.
  - intros d team host Hd. unfold Registry.report; simpl.
    rewrite decide_False; [done|]. by intros ?.
  - intros d team host Hd. unfold Registry.report; simpl.
    rewrite decide_True by done. split; [done|]. set_solver.
  - intros d team host Hd. unfold Registry.report; simpl.
    by rewrite decide_False.
Qed.

(** Team 2's host goes down, is reported down again, and recovers. *)
Lemma report_sequence_membership_witness :
  Registry.report 2 "10.2.1.5" false ∅ =
    ({[ (2, "10.2.1.5") ]}, [Registry.possible_reset 2 "10.2.1.5"]) ∧
  Registry.report 2 "10.2.1.5" false {[ (2, "10.2.1.5") ]} =
    ({[ (2, "10.2.1.5") ]}, []) ∧
  Registry.report 2 "10.2.1.5" true {[ (2, "10.2.1.5") ]} =
    (∅, [Registry.recovered 2 "10.2.1.5"]) ∧
  Registry.report 2 "10.2.1.5" true ∅ = (∅, []) ∧
  (2, "10.2.1.5") ∉
    (Registry.reports [Registry.Call 2 "10.2.1.5" false;
                       Registry.Call 2 "10.2.1.5" false;
                       Registry.Call 2 "10.2.1.5" true] ∅).1.
Proof.
  destruct report_sequence_membership as (Hseq & Hdown & Hdup & Hrec & Hup).
  split_and!.
  - destruct (Hdown ∅ 2 "10.2.1.5") as [-> _]; [set_solver|].
    f_equal; set_solver.
  - apply Hdup. set_solver.
  - destruct (Hrec {[ (2, "10.2.1.5") ]} 2 "10.2.1.5") as [-> _]; [set_solver|].
    f_equal; set_solver.
  - apply Hup. set_solver.
  - rewrite Hseq. simpl. by repeat case_decide.
Defined.

(** C10. A report call for (team, host) leaves the membership of every
    other pair as it was. *)
Theorem report_frame (d : registry) (team : Z) (host : string)
    (reachable : bool) (team' : Z) (host' : string) :
  (team', host') ≠ (team, host) →
  (team', host') ∈ (Registry.report team host reachable d).1 ↔
  (team', host') ∈ d.
Proof.
  intros Hne. rewrite report_elem_of. rewrite decide_False; [done|].
  by intros ?.
Qed.

Lemma report_frame_witness :
  (2, "10.2.1.5") ∈ (Registry.report 1 "10.1.1.5" false {[ (2, "10.2.1.5") ]}).1 ↔
  (2, "10.2.1.5") ∈ ({[ (2, "10.2.1.5") ]} : registry).
Proof. apply (report_frame _ 1 "10.1.1.5" false 2 "10.2.1.5"). by intros [=]. Defined.

(** Reporting a host down twice on a fresh registry changes it once and
    prints one alert; reporting it down and then up leaves the registry
    without it and prints one recovery. *)
Lemma report_idempotent (team : Z) (host : string) :
  Registry.reports [Registry.Call team host false;
                    Registry.Call team host false] ∅ =
  ({[ (team, host) ]}, [Registry.possible_reset team host]).
Proof.
  unfold Registry.reports, Registry.report. simpl.
  rewrite decide_True by set_solver. rewrite decide_False by set_solver.
  f_equal. set_solver.
Qed.

Lemma report_round_trip (team : Z) (host : string) :
  Registry.reports [Registry.Call team host false;
                    Registry.Call team host true] ∅ =
  (∅, [Registry.possible_reset team host; Registry.recovered team host]).
Proof.
  unfold Registry.reports, Registry.report. simpl.
  rewrite decide_True by set_solver. rewrite decide_True by set_solver.
  f_equal. set_solver.
Qed.

(** ** The reachability probe *)

Section check_ports_facts.
Import PyStr PortChecker.
Variables (net : network) (host : string) (timeout : Z).

Lemma check_ports_from_first_open (k : nat) ports :
  (∀ j port, ports !! j = Some port →
     net (k + j)%nat (strip host) port timeout ≠ Fails KeyboardInterrupt) →
  check_ports_from net k host ports timeout =
  match first_open net k host ports timeout with
  | Some n => (Ret true, Connect (strip host) <$> take (S n) ports)
  | None => (Ret false, Connect (strip host) <$> ports)
  end.
Proof.
  revert k. induction ports as [|port ports' IH]; intros k Hord; [done|].
  assert (Hrest : ∀ j q, ports' !! j = Some q →
            net (S k + j)%nat (strip host) q timeout ≠ Fails KeyboardInterrupt).
  { intros j q Hj. replace (S k + j)%nat with (k + S j)%nat by lia.
    by apply Hord. }
  specialize (IH (S k) Hrest).
  pose proof (Hord O port eq_refl) as H0.
  replace (k + 0)%nat with k in H0 by lia.
  cbn [check_ports_from first_open].
  destruct (net k (strip host) port timeout) as [result|[msg|]] eqn:Hnet;
    [| |done].
  - destruct (decide (result = 0)) as [->|Hne].
    + by rewrite decide_True.
    + rewrite decide_False by congruence. rewrite IH.
      by destruct (first_open net (S k) host ports' timeout).
  - rewrite decide_False by done. rewrite IH.
    by destruct (first_open net (S k) host ports' timeout).
Qed.

Lemma first_open_Some (k : nat) ports (n : nat) :
  first_open net k host ports timeout = Some n →
  ∃ port, ports !! n = Some port ∧
    net (k + n)%nat (strip host) port timeout = ConnectEx 0 ∧
    ∀ j q, (j < n)%nat → ports !! j = Some q →
      net (k + j)%nat (strip host) q timeout ≠ ConnectEx 0.
Proof.
  revert k n. induction ports as [|port ports' IH]; intros k n; [done|].
  cbn [first_open]. case_decide as Hc.
  - intros [= <-]. exists port. replace (k + 0)%nat with k by lia.
    split_and!; [done..|]. intros; lia.
  - destruct (first_open net (S k) host ports' timeout) as [m|] eqn:Hm;
      [|done].
    intros [= <-]. destruct (IH _ _ Hm) as (q & Hq & Hopen & Hbefore).
    exists q. replace (k + S m)%nat with (S k + m)%nat by lia.
    split_and!; [done..|]. intros [|j] q' Hj Hq'.
    + simplify_eq/=. by replace (k + 0)%nat with k by lia.
    + replace (k + S j)%nat with (S k + j)%nat by lia.
      apply Hbefore; [lia|done].
Qed.

Lemma first_open_None (k : nat) ports :
  first_open net k host ports timeout = None →
  ∀ j q, ports !! j = Some q →
    net (k + j)%nat (strip host) q timeout ≠ ConnectEx 0.
Proof.
  revert k. induction ports as [|port ports' IH]; intros k; [done|].
  cbn [first_open]. case_decide as Hc; [done|].
  destruct (first_open net (S k) host ports' timeout) eqn:Hm; [done|].
  intros _ [|j] q Hq.
  - simplify_eq/=. by replace (k + 0)%nat with k by lia.
  - replace (k + S j)%nat with (S k + j)%nat by lia. by apply IH.
Qed.

(** The only exception that leaves [check_ports] is the interrupt it
    re-raises. *)
Lemma check_ports_raises_only_interrupt (k : nat) ports e :
  (check_ports_from net k host ports timeout).1 = Raise e →
  e = KeyboardInterrupt.
Proof.
  revert k. induction ports as [|port ports' IH]; intros k; [done|].
  cbn [check_ports_from].
  destruct (net k (strip host) port timeout) as [result|[msg|]].
  - case_decide; [done|]. specialize (IH (S k)).
    by destruct (check_ports_from net (S k) host ports' timeout).
  - specialize (IH (S k)).
    by destruct (check_ports_from net (S k) host ports' timeout).
  - by intros [= <-].
Qed.
End check_ports_facts.

(** C4. When no attempt is cut short by a KeyboardInterrupt, the probe
    never raises; it tries the ports in the order given; it returns
    true at the first port whose connection is accepted, having tried
    exactly the ports up to that one and none after it; and it returns
    false, having tried every port, when no port accepts. *)
Theorem check_ports_in_order (net : PortChecker.network) (host : string)
    (ports : list Z) (timeout : Z) :
  (∀ j port, ports !! j = Some port →
     net j (PyStr.strip host) port timeout ≠ PortChecker.Fails KeyboardInterrupt) →
  (∃ n port,
      ports !! n = Some port ∧
      net n (PyStr.strip host) port timeout = PortChecker.ConnectEx 0 ∧
      (∀ j q, (j < n)%nat → ports !! j = Some q →
         net j (PyStr.strip host) q timeout ≠ PortChecker.ConnectEx 0) ∧
      PortChecker.check_ports net host ports timeout =
        (Ret true, Connect (PyStr.strip host) <$> take (S n) ports))
  ∨ ((∀ j q, ports !! j = Some q →
         net j (PyStr.strip host) q timeout ≠ PortChecker.ConnectEx 0) ∧
     PortChecker.check_ports net host ports timeout =
        (Ret false, Connect (PyStr.strip host) <$> ports)).
Proof.
  intros Hord. unfold PortChecker.check_ports.
  rewrite check_ports_from_first_open by done.
  destruct (PortChecker.first_open net 0 host ports timeout) as [n|] eqn:Hfo.
  - left. destruct (first_open_Some _ _ _ _ _ _ Hfo) as (port & ? & ? & ?).
    by exists n, port.
  - right. split; [|done]. by apply (first_open_None _ _ _ _ _ Hfo).
Qed.

(** Port 22 refuses, port 80 accepts, port 443 is never tried. *)
Lemma check_ports_in_order_witness :
  let net : PortChecker.network := λ k host port timeout,
    if decide (port = 80) then PortChecker.ConnectEx 0
    else PortChecker.ConnectEx 111 in
  PortChecker.check_ports net " 10.1.1.5 " [22; 80; 443] 3 =
    (Ret true, [Connect "10.1.1.5" 22; Connect "10.1.1.5" 80]).
Proof.
  intros net.
  destruct (check_ports_in_order net " 10.1.1.5 " [22; 80; 443] 3)
    as [(n & port & Hn & Hopen & Hbefore & ->)|[Hnone _]].
  - intros j port Hj. unfold net. by case_decide.
  - destruct n as [|[|[|n]]]; simplify_eq/=; try done.
    all: exfalso; by apply (Hbefore 1%nat 80).
  - exfalso. by apply (Hnone 1%nat 80).
Defined.

(** ** Substitution and un-substitution of the team *)

Section string_facts.
Implicit Types (s t u : string) (c : ascii).

Lemma str_app_cons c s t : String c s +:+ t = String c (s +:+ t).
Proof. reflexivity. Qed.

Lemma str_app_nil_r s : s +:+ EmptyString = s.
Proof. induction s; [done|]. rewrite str_app_cons. by f_equal. Qed.

Lemma str_app_assoc s t u : (s +:+ t) +:+ u = s +:+ t +:+ u.
Proof. induction s; [done|]. rewrite !str_app_cons. by f_equal. Qed.

Lemma str_length_app s t :
  String.length (s +:+ t) = (String.length s + String.length t)%nat.
Proof. induction s; [done|]. rewrite str_app_cons. simpl. by f_equal. Qed.

Lemma snoc_app s c t : PyStr.snoc s c +:+ t = s +:+ String c t.
Proof. unfold PyStr.snoc. by rewrite str_app_assoc. Qed.

Lemma snoc_length s c : String.length (PyStr.snoc s c) = S (String.length s).
Proof. unfold PyStr.snoc. rewrite str_length_app. simpl. lia. Qed.

Lemma getitem_app_r s t (n : nat) :
  PyStr.getitem (s +:+ t) (String.length s + n) = PyStr.getitem t n.
Proof.
  unfold PyStr.getitem. induction s; [done|].
  rewrite str_app_cons. simpl. done.
Qed.

Lemma getitem_app_here s c t :
  PyStr.getitem (s +:+ String c t) (String.length s) = Ret c.
Proof.
  replace (String.length s) with (String.length s + 0)%nat by lia.
  by rewrite getitem_app_r.
Qed.

Lemma slice_from_app s t (n : nat) :
  PyStr.slice_from (String.length s + n) (s +:+ t) = PyStr.slice_from n t.
Proof. induction s; [done|]. rewrite str_app_cons. simpl. done. Qed.

Lemma brace_free_cons c s :
  PyStr.brace_free (String c s) = true →
  c ≠ "{"%char ∧ c ≠ "}"%char ∧ PyStr.brace_free s = true.
Proof.
  unfold PyStr.brace_free. simpl.
  do 2 case_bool_decide;
    by destruct (PyStr.occurs "{" s), (PyStr.occurs "}" s).
Qed.
End string_facts.

Section format_facts.
Import PyStr.
Variables (placeholder : string) (team : Z).

Let lift (s : string) (r : formatted) : formatted :=
  match r with Formatted t => Formatted (s +:+ t) | _ => r end.

Lemma plain_cons c s :
  plain (String c s) = true →
  c ≠ "{"%char ∧ c ≠ "}"%char ∧ ends_name c = false ∧ plain s = true.
Proof.
  simpl. do 2 case_bool_decide; destruct (ends_name c), (plain s); done.
Qed.

Lemma format_go_literal s rest :
  brace_free s = true →
  format_go placeholder team None (s +:+ rest) =
  lift s (format_go placeholder team None rest).
Proof.
  induction s as [|c s IH]; intros Hs.
  - change (EmptyString +:+ rest) with rest.
    by destruct (format_go placeholder team None rest).
  - apply brace_free_cons in Hs as (? & ? & Hs).
    rewrite str_app_cons. simpl. rewrite !decide_False by done.
    rewrite (IH Hs).
    by destruct (format_go placeholder team None rest).
Qed.

Lemma format_go_field name s rest :
  plain s = true → all_digits (name +:+ s) = false →
  format_go placeholder team (Some name) (s +:+ String "}" rest) =
  if decide (name +:+ s = placeholder)
  then lift (str team) (format_go placeholder team None rest)
  else FormatError (Exception ("'" +:+ (name +:+ s) +:+ "'")).
Proof.
  revert name. induction s as [|c s IH]; intros name Hs Hd.
  - rewrite str_app_nil_r in *. change (EmptyString +:+ ?x) with x.
    simpl. rewrite Hd. case_decide; [|done].
    by destruct (format_go placeholder team None rest).
  - apply plain_cons in Hs as (? & ? & Hc & Hs).
    rewrite str_app_cons. simpl. rewrite !decide_False by done.
    rewrite Hc, (IH _ Hs); rewrite !snoc_app; done.
Qed.

Lemma format_one_placeholder prefix suffix :
  brace_free prefix = true → keyword placeholder = true →
  brace_free suffix = true →
  format (prefix +:+ token placeholder +:+ suffix) placeholder team =
  Formatted (prefix +:+ str team +:+ suffix).
Proof.
  intros Hp [Hph Hnum%negb_true_iff]%andb_true_iff Hs. unfold format, token.
  rewrite format_go_literal by done.
  assert (format_go placeholder team None
            (("{" +:+ placeholder +:+ "}") +:+ suffix) =
          Formatted (str team +:+ suffix)) as ->; [|done].
  rewrite str_app_assoc, str_app_cons, str_app_assoc.
  change (EmptyString +:+ ?x) with x.
  assert (format_go placeholder team (Some EmptyString)
            (placeholder +:+ String "}" suffix) =
          Formatted (str team +:+ suffix)) as Hfield.
  { rewrite format_go_field by done. rewrite decide_True by done.
    replace suffix with (suffix +:+ EmptyString) at 1 by apply str_app_nil_r.
    rewrite format_go_literal by done. simpl. by rewrite str_app_nil_r. }
  destruct placeholder as [|c ph] eqn:Hpheq; [done|].
  apply plain_cons in Hph as (? & ? & _).
  rewrite str_app_cons in *. simpl. rewrite !decide_False by done.
  simpl in Hfield. rewrite !decide_False in Hfield by done. done.
Qed.
End format_facts.

Lemma str_head (team : Z) :
  ∃ d ds, str team = String d ds ∧ d ≠ "{"%char.
Proof.
  assert (Hgo : ∀ x s, (0 < x)%N →
            ∃ d ds, pretty_N_go x s = String d ds ∧ d ≠ "{"%char).
  { intros x. induction (N.lt_wf_0 x) as [x _ IH]; intros s Hx.
    rewrite pretty_N_go_step by done.
    destruct (decide (x `div` 10 = 0)%N) as [->|Hdiv].
    - rewrite pretty_N_go_0. eexists _, _. split; [done|].
      unfold pretty_N_char. by repeat case_match.
    - apply IH; [apply N.div_lt; lia|]. by apply N.neq_0_lt_0. }
  unfold str, pretty, pretty_Z. destruct team as [|p|p].
  - by eexists _, _.
  - unfold pretty, pretty_positive, pretty, pretty_N.
    rewrite decide_False by done. apply Hgo. lia.
  - unfold pretty, pretty_positive, pretty, pretty_N.
    rewrite decide_False by done. by eexists _, _.
Qed.

Section unformat_facts.
Import PyStr Unformat.

(** The outer loop copies a common prefix. *)
Lemma loop_common_prefix pre seen P F format_string (fuel : nat) u :
  (String.length pre < fuel)%nat →
  loop fuel (seen +:+ pre +:+ P) (seen +:+ pre +:+ F) format_string
    (String.length seen) u =
  loop (fuel - String.length pre) (seen +:+ pre +:+ P) (seen +:+ pre +:+ F)
    format_string (String.length (seen +:+ pre)) (u +:+ pre).
Proof.
  revert seen fuel u. induction pre as [|c pre IH]; intros seen fuel u Hfuel.
  - rewrite !str_app_nil_r. simpl. by rewrite Nat.sub_0_r.
  - destruct fuel as [|fuel]; [simpl in Hfuel; lia|].
    cbn [loop]. rewrite decide_True.
    2:{ rewrite !str_length_app. simpl. lia. }
    rewrite !str_app_cons, !getitem_app_here. rewrite decide_True by done.
    rewrite <-!(snoc_app seen c), <-(snoc_app u c), <-(snoc_length seen c).
    rewrite IH by (simpl in Hfuel; lia). done.
Qed.

(** The inner loop copies the pattern up to the first [x]. *)
Lemma inner_copies mid a z x rest u (fuel : nat) :
  z ≠ x → occurs x mid = false → (S (String.length mid) < fuel)%nat →
  inner fuel (a +:+ String z (mid +:+ String x rest)) x
    (String.length a) z u =
  Some (u +:+ String z mid, Ret ()).
Proof.
  revert a z u fuel. induction mid as [|m mid IH];
    intros a z u fuel Hz Hmid Hfuel.
  - destruct fuel as [|[|fuel]]; [simpl in Hfuel; lia..|].
    change (EmptyString +:+ ?s) with s. cbn [inner].
    rewrite decide_True by done.
    rewrite <-snoc_app, <-(snoc_length a z), getitem_app_here.
    rewrite decide_False by (by intros ?). done.
  - destruct fuel as [|fuel]; [simpl in Hfuel; lia|].
    simpl in Hmid. apply orb_false_iff in Hmid as [Hm Hmid].
    apply bool_decide_eq_false in Hm.
    rewrite str_app_cons. cbn [inner]. rewrite decide_True by done.
    rewrite <-snoc_app, <-(snoc_length a z), getitem_app_here.
    rewrite IH; [|done..|simpl in Hfuel; lia].
    by rewrite snoc_app.
Qed.

(** Both loops end within the fuel [unformat] gives them. *)
Lemma inner_total (fuel : nat) host_pattern x (j : nat) z u :
  (String.length host_pattern - j < fuel)%nat →
  is_Some (inner fuel host_pattern x j z u).
Proof.
  revert j z u. induction fuel as [|fuel IH]; intros j z u Hfuel; [lia|].
  cbn [inner]. case_decide; [|done].
  unfold getitem. destruct (String.get (S j) host_pattern) eqn:Hget; [|done].
  apply IH. assert (S j < String.length host_pattern)%nat; [|lia].
  clear -Hget. revert j Hget.
  induction host_pattern as [|c p IHp]; intros j Hget; [done|].
  simpl in *. destruct j; [destruct p; simpl in *; [done|lia]|].
  apply IHp in Hget. lia.
Qed.

Lemma loop_total (fuel : nat) host_pattern formatted_string format_string
    (i : nat) u :
  (String.length formatted_string - i < fuel)%nat →
  is_Some (loop fuel host_pattern formatted_string format_string i u).
Proof.
  revert i u. induction fuel as [|fuel IH]; intros i u Hfuel; [lia|].
  cbn [loop]. case_decide; [|done].
  destruct (getitem formatted_string i) as [x|]; [|done].
  destruct (getitem host_pattern i) as [y|]; [|done].
  case_decide; [apply IH; lia|].
  destruct (getitem formatted_string _) as [x'|]; [|done].
  destruct (inner_total (S (String.length host_pattern)) host_pattern x' i y u)
    as [[u' [[]|e]] ->]; [lia|done..].
Qed.

Lemma unformat_total host_pattern formatted_string format_string :
  is_Some (unformat host_pattern formatted_string format_string).
Proof.
  unfold unformat.
  destruct (loop_total (S (String.length formatted_string)) host_pattern
              formatted_string (str format_string) 0 EmptyString)
    as [[[u printed] [[]|e]] ->]; [lia|done..].
Qed.
End unformat_facts.

(** C9, as the code has it.  For a pattern made of brace-free text, one
    placeholder token whose name is a plain keyword, and brace-free text
    after it that is not empty and whose first character does not occur
    in the placeholder's name, and for every team, un-substitution of
    the host obtained by substituting the team gives the pattern back. *)
Theorem unformat_format_inverse (prefix placeholder suffix : string)
    (c : ascii) (team : Z) :
  PyStr.brace_free prefix = true →
  PyStr.keyword placeholder = true →
  PyStr.brace_free (String c suffix) = true →
  PyStr.occurs c placeholder = false →
  let host_pattern := prefix +:+ PyStr.token placeholder +:+ String c suffix in
  ∃ formatted_host,
    PyStr.format host_pattern placeholder team
      = PyStr.Formatted formatted_host ∧
    Unformat.unformat host_pattern formatted_host team =
      Some (host_pattern, [String c EmptyString]).
Proof.
  intros Hp Hph Hs Hc host_pattern.
  exists (prefix +:+ str team +:+ String c suffix). split.
  { by apply format_one_placeholder. }
  destruct (str_head team) as (d & ds & Hstr & Hd).
  apply brace_free_cons in Hs as (Hc1 & Hc2 & _).
  unfold Unformat.unformat, host_pattern, PyStr.token.
  rewrite Hstr.
  set (fuel := S (String.length (prefix +:+ String d ds +:+ String c suffix))).
  pose proof (loop_common_prefix prefix EmptyString
    (("{" +:+ placeholder +:+ "}") +:+ String c suffix)
    (String d ds +:+ String c suffix) (String d ds) fuel EmptyString) as Hloop.
  change (EmptyString +:+ ?s) with s in Hloop. simpl String.length in Hloop at 2.
  rewrite Hloop; clear Hloop.
  2:{ unfold fuel. rewrite str_length_app. lia. }
  assert (fuel - String.length prefix = S (String.length (String d ds +:+ String c suffix)))%nat as ->.
  { unfold fuel. rewrite (str_length_app prefix). lia. }
  cbn [Unformat.loop]. rewrite decide_True.
  2:{ rewrite !str_length_app. simpl. lia. }
  rewrite str_app_assoc, !str_app_cons, str_app_assoc.
  change (EmptyString +:+ ?s) with s.
  rewrite !getitem_app_here. rewrite decide_False by done.
  rewrite getitem_app_r.
  replace (String.length (String d ds)) with (String.length (String d ds) + 0)%nat at 1 by lia.
  rewrite <-(str_app_cons d ds), getitem_app_r. cbn [PyStr.getitem String.get].
  rewrite <-(str_app_assoc placeholder "}" (String c suffix)).
  rewrite (inner_copies (placeholder +:+ "}") prefix "{" c suffix prefix).
  - rewrite slice_from_app.
    replace (String.length (String d ds)) with (String.length (String d ds) + 0)%nat by lia.
    rewrite slice_from_app. cbn [PyStr.slice_from].
    by rewrite (str_app_assoc prefix), str_app_cons.
  - by apply not_eq_sym.
  - clear -Hc Hc2. induction placeholder as [|p ph IH]; simpl in *.
    + rewrite bool_decide_eq_false_2; [done|]. by apply not_eq_sym.
    + apply orb_false_iff in Hc as [-> Hc]. by apply IH.
  - rewrite !str_length_app. simpl. rewrite !str_length_app. simpl. lia.
Qed.

Lemma unformat_format_inverse_witness :
  ∃ formatted_host,
    PyStr.format "10.{team}.1.5" "team" 7 = PyStr.Formatted formatted_host ∧
    Unformat.unformat "10.{team}.1.5" formatted_host 7 =
      Some ("10.{team}.1.5", ["."]).
Proof.
  apply (unformat_format_inverse "10." "team" "1.5" "." 7); reflexivity.
Defined.

(** C9 as stated fails on the code: with the placeholder last in the
    pattern the index after the team is out of range and the text built
    so far is returned; with a first character after the placeholder
    that occurs in its name the copy of the token stops early. *)
Lemma unformat_not_inverse :
  ¬ (∀ formatted_host,
       PyStr.format "host{team}" "team" 5 = PyStr.Formatted formatted_host →
       fst <$> Unformat.unformat "host{team}" formatted_host 5 =
         Some "host{team}") ∧
  ¬ (∀ formatted_host,
       PyStr.format "team{team}a.example.com" "team" 5
         = PyStr.Formatted formatted_host →
       fst <$> Unformat.unformat "team{team}a.example.com" formatted_host 5 =
         Some "team{team}a.example.com").
Proof.
  split; intros H.
  - by specialize (H "host5" eq_refl).
  - by specialize (H "team5a.example.com" eq_refl).
Qed.

Example unformat_placeholder_last :
  Unformat.unformat "host{team}" "host5" 5 =
  Some ("host", ["Error unformatting string: string index out of range"]).
Proof. reflexivity. Qed.

Example unformat_scanned_host :
  Unformat.unformat "10.{team}.1.0/24" "10.5.1.17" 5 =
  Some ("10.{team}.1.17", ["."]).
Proof. reflexivity. Qed.

(** ** The worker *)

Section worker_facts.
Import Worker.
Variable w : worker.

Lemma react_stopping o d rest n i st :
  stopping o d rest n st →
  stopping o d rest (n + steps [i]) (react w i st).
Proof.
  destruct st as [p s dh ou]. unfold stopping. simpl.
  intros (-> & -> & H). destruct i as [probe|]; simpl.
  - destruct n as [|[|n]]; destruct H as [-> ->]; simpl.
    + by destruct rest.
    + done.
    + replace (n + 1)%nat with (S n) by lia. done.
  - replace (n + 0)%nat with n by lia. done.
Qed.

Lemma run_stopping o d rest n inputs st :
  stopping o d rest n st →
  stopping o d rest (n + steps inputs) (run w inputs st).
Proof.
  revert n st. induction inputs as [|i inputs IH]; intros n st H.
  - simpl. by replace (n + 0)%nat with n by lia.
  - apply (react_stopping _ _ _ _ i) in H. apply IH in H.
    replace (n + steps (i :: inputs))%nat
      with (n + steps [i] + steps inputs)%nat; [done|].
    destruct i; simpl; lia.
Qed.
End worker_facts.

(** C8. A worker that finds the stop event set at the head of [for],
    whatever teams are left in the cycle, makes no further probe and no
    further report: the registry stays as it is, nothing but the call
    of [wait(0.1)] is added to its actions, and with its second step it
    has returned, without coming back to the test of [while]. *)
Theorem stop_abandons_cycle (w : Worker.worker) (st : Worker.state)
    (rest : list Z) (inputs : list Worker.input) :
  Worker.at_pc st = Worker.AtFor rest →
  Worker.stop_event st = true →
  let st' := Worker.run w inputs st in
  Worker.down_hosts st' = Worker.down_hosts st ∧
  match Worker.steps inputs with
  | O => Worker.at_pc st' = Worker.AtFor rest ∧
         Worker.out st' = Worker.out st
  | S O => Worker.at_pc st' = Worker.AtWait01 ∧
           Worker.out st' = Worker.out st
  | _ => Worker.at_pc st' = Worker.Done (Ret ()) ∧
         Worker.out st' = Worker.out st ++ [Wait 100]
  end.
Proof.
  intros Hpc Hstop st'.
  assert (H : Worker.stopping (Worker.out st) (Worker.down_hosts st) rest 0 st)
    by done.
  apply (run_stopping w _ _ _ _ inputs) in H.
  destruct H as (_ & Hd & H). done.
Qed.

(** Stop set after team 1 of teams 1..3: teams 2 and 3 are not probed. *)
Lemma stop_abandons_cycle_witness :
  let w := {| Worker.host := "10.{team}.1.5"; Worker.ports := [22];
              Worker.teams := [1; 2; 3]; Worker.placeholder := "team" |} in
  let st := {| Worker.at_pc := Worker.AtFor [2; 3];
               Worker.stop_event := true; Worker.down_hosts := ∅;
               Worker.out := [CheckPorts "10.1.1.5" [22]] |} in
  let st' := Worker.run w [Worker.Step (Ret false); Worker.Step (Ret false);
                           Worker.Step (Ret false)] st in
  Worker.down_hosts st' = ∅ ∧
  Worker.at_pc st' = Worker.Done (Ret ()) ∧
  Worker.out st' = [CheckPorts "10.1.1.5" [22]; Wait 100].
Proof.
  intros w st st'.
  destruct (stop_abandons_cycle w st [2; 3]
    [Worker.Step (Ret false); Worker.Step (Ret false); Worker.Step (Ret false)]
    eq_refl eq_refl) as [Hd H].
  split; [exact Hd | exact H].
Defined.

(** Scenario A of the specification: teams 1..3, team 2 unreachable in
    the first cycle; scenario B: team 2 reachable again in the next. *)
Example scenario_A_B :
  let w := {| Worker.host := "10.{team}.1.5"; Worker.ports := [22];
              Worker.teams := Worker.config_teams 1 3;
              Worker.placeholder := "team" |} in
  let cycle1 := Worker.Step <$> [Ret true; Ret true; Ret false; Ret true;
                                 Ret true; Ret true] in
  let cycle2 := Worker.Step <$> [Ret true; Ret true; Ret true; Ret true] in
  Worker.down_hosts (Worker.check_host_continuous w cycle1 ∅)
    = {[ (2, "10.2.1.5") ]} ∧
  Worker.down_hosts (Worker.check_host_continuous w (cycle1 ++ cycle2) ∅)
    = ∅ ∧
  Worker.out (Worker.check_host_continuous w (cycle1 ++ cycle2) ∅) =
    [CheckPorts "10.1.1.5" [22]; CheckPorts "10.2.1.5" [22];
     Print "TEAM 2 - HOST 10.2.1.5 - POSSIBLE BOX RESET";
     CheckPorts "10.3.1.5" [22]; Wait 100;
     CheckPorts "10.1.1.5" [22]; CheckPorts "10.2.1.5" [22];
     Print "TEAM 2 - HOST 10.2.1.5 - RECOVERED";
     CheckPorts "10.3.1.5" [22]].
Proof. by vm_compute. Qed.

(** C2, as the code has it.  When the probe of a team raises an
    Exception, the worker does not terminate: the registry is left as
    it was, the error is printed, and the worker waits one second; if
    the stop event is not set meanwhile it goes back to the test of
    [while] and starts the cycle again from the first team, and if it
    is set the worker returns. *)
Theorem probe_exception_restarts_cycle (w : Worker.worker)
    (st : Worker.state) (team : Z) (rest : list Z)
    (formatted_host msg : string) :
  Worker.at_pc st = Worker.AtFor (team :: rest) →
  Worker.stop_event st = false →
  PyStr.format (Worker.host w) (Worker.placeholder w) team
    = PyStr.Formatted formatted_host →
  let st1 := Worker.step w (Raise (Exception msg)) st in
  (Worker.at_pc st1 = Worker.AtWait1 ∧
   Worker.down_hosts st1 = Worker.down_hosts st ∧
   Worker.out st1 = Worker.out st ++
     [CheckPorts formatted_host (Worker.ports w);
      Print (Worker.error_line w msg)]) ∧
  (∀ p2 p3,
     let st3 := Worker.run w [Worker.Step p2; Worker.Step p3] st1 in
     Worker.at_pc st3 = Worker.AtFor (Worker.teams w) ∧
     Worker.down_hosts st3 = Worker.down_hosts st ∧
     Worker.out st3 = Worker.out st1 ++ [Wait 1000]) ∧
  (∀ p2,
     let st2 := Worker.run w [Worker.SetStop; Worker.Step p2] st1 in
     Worker.at_pc st2 = Worker.Done (Ret ()) ∧
     Worker.down_hosts st2 = Worker.down_hosts st ∧
     Worker.out st2 = Worker.out st1 ++ [Wait 1000]).
Proof.
  destruct st as [p s d o]. simpl. intros -> -> Hfmt.
  assert (Worker.step w (Raise (Exception msg))
            {| Worker.at_pc := Worker.AtFor (team :: rest);
               Worker.stop_event := false;
               Worker.down_hosts := d; Worker.out := o |} =
          {| Worker.at_pc := Worker.AtWait1;
             Worker.stop_event := false; Worker.down_hosts := d;
             Worker.out := o ++ [CheckPorts formatted_host (Worker.ports w);
                                 Print (Worker.error_line w msg)] |}) as ->.
  { unfold Worker.step. simpl. rewrite Hfmt.
    unfold Worker.handle, Worker.goto, Worker.emit. simpl.
    by rewrite <-app_assoc. }
  done.
Qed.

Lemma probe_exception_restarts_cycle_witness :
  let w := {| Worker.host := "10.{team}.1.5"; Worker.ports := [22];
              Worker.teams := [1; 2; 3]; Worker.placeholder := "team" |} in
  let st := {| Worker.at_pc := Worker.AtFor [2; 3];
               Worker.stop_event := false; Worker.down_hosts := ∅;
               Worker.out := [] |} in
  let st1 := Worker.step w (Raise (Exception "boom")) st in
  Worker.at_pc st1 = Worker.AtWait1 ∧
  Worker.down_hosts st1 = ∅ ∧
  Worker.out st1 =
    [CheckPorts "10.2.1.5" [22];
     Print "Error checking host 10.{team}.1.5: boom"].
Proof.
  intros w st st1.
  exact (proj1 (probe_exception_restarts_cycle w st 2 [3] "10.2.1.5" "boom"
                  eq_refl eq_refl eq_refl)).
Defined.

(** C2 as stated fails on the code: with teams 1..3 and team 1 already
    probed, an exception in the probe of team 2 leaves the registry
    without (2, 10.2.1.5), where a probe returning false would have
    put it in, and after the pause the worker probes team 1 again
    instead of going on from team 2. *)
Lemma probe_exception_not_recorded :
  let w := {| Worker.host := "10.{team}.1.5"; Worker.ports := [22];
              Worker.teams := [1; 2; 3]; Worker.placeholder := "team" |} in
  let st := {| Worker.at_pc := Worker.AtFor [2; 3];
               Worker.stop_event := false; Worker.down_hosts := ∅;
               Worker.out := [] |} in
  let st1 := Worker.step w (Raise (Exception "boom")) st in
  let st4 := Worker.run w [Worker.Step (Ret true); Worker.Step (Ret true);
                           Worker.Step (Ret true)] st1 in
  (Worker.down_hosts st1 ≠
     (Registry.report 2 "10.2.1.5" false (Worker.down_hosts st)).1) ∧
  ((2, "10.2.1.5") ∉ Worker.down_hosts st1) ∧
  Worker.at_pc st4 = Worker.AtFor [2; 3] ∧
  Worker.out st4 =
    [CheckPorts "10.2.1.5" [22];
     Print "Error checking host 10.{team}.1.5: boom";
     Wait 1000;
     CheckPorts "10.1.1.5" [22]].
Proof.
  intros w st st1 st4.
  assert (Worker.down_hosts st1 = ∅) as Hd by reflexivity.
  split_and!.
  - rewrite Hd. intros H.
    assert ((2, "10.2.1.5") ∈ (∅ : registry)) as Hin; [|set_solver].
    rewrite H. apply report_elem_of. by rewrite decide_True.
  - rewrite Hd. set_solver.
  - reflexivity.
  - reflexivity.
Qed.

(** ** The worker pool *)

Section executor_facts.
Import Executor.

Lemma submit_all_tasks t e :
  running (submit t e) ++ waiting (submit t e) ≡ₚ
  running e ++ waiting e ++ [t].
Proof.
  unfold submit. case_decide; simpl.
  - by rewrite <-!app_assoc, (Permutation_app_comm [t]).
  - done.
Qed.

Lemma submit_max_workers t e : max_workers (submit t e) = max_workers e.
Proof. unfold submit. by case_decide. Qed.

Lemma submit_roomy t e n :
  roomy (S n) e →
  roomy n (submit t e) ∧ running (submit t e) = running e ++ [t].
Proof.
  intros [Hw Hr]. unfold submit. rewrite decide_True by lia. simpl.
  split; [|done]. unfold roomy. simpl. split; [done|].
  rewrite length_app. simpl. lia.
Qed.

Lemma submit_pairs_roomy pairs e n :
  roomy (length pairs + n) e →
  let e' := foldl (λ e pair, submit (CheckHost pair) e) e pairs in
  roomy n e' ∧ running e' = running e ++ (CheckHost <$> pairs) ∧
  max_workers e' = max_workers e.
Proof.
  revert e. induction pairs as [|pair pairs IH]; intros e Hroom; simpl.
  - by rewrite app_nil_r.
  - simpl in Hroom. apply (submit_roomy (CheckHost pair)) in Hroom as [Hroom Hrun].
    destruct (IH _ Hroom) as (? & -> & ->).
    rewrite Hrun, submit_max_workers, <-app_assoc. done.
Qed.

Lemma submit_pairs_count pairs e :
  let e' := foldl (λ e pair, submit (CheckHost pair) e) e pairs in
  running e' ++ waiting e' ≡ₚ
    running e ++ waiting e ++ (CheckHost <$> pairs) ∧
  max_workers e' = max_workers e.
Proof.
  revert e. induction pairs as [|pair pairs IH]; intros e; simpl.
  - by rewrite app_nil_r.
  - destruct (IH (submit (CheckHost pair) e)) as [-> ->].
    rewrite submit_max_workers. split; [|done].
    rewrite (app_assoc (running (submit _ e))), submit_all_tasks.
    by rewrite <-!app_assoc.
Qed.
End executor_facts.

(** C6, as the code has it.  The pool's capacity is the configured
    [max_workers] (4 when not configured) plus one, whatever the
    inventory; one worker per inventory entry and then one reporter are
    submitted; and when the inventory has no more entries than
    [max_workers], every one of them has a thread and none waits. *)
Theorem pool_sized_by_config (configured : option Z)
    (host_ports_pairs : list (string * list Z)) :
  0 ≤ Executor.config_max_workers configured →
  ∃ e,
    Executor.launch configured host_ports_pairs = Ret e ∧
    Executor.max_workers e = Executor.config_max_workers configured + 1 ∧
    Executor.running e ++ Executor.waiting e ≡ₚ
      (Executor.CheckHost <$> host_ports_pairs) ++ [Executor.Reporter] ∧
    (Z.of_nat (length host_ports_pairs) ≤
       Executor.config_max_workers configured →
     Executor.running e =
       (Executor.CheckHost <$> host_ports_pairs) ++ [Executor.Reporter] ∧
     Executor.waiting e = []).
Proof.
  intros Hmw. unfold Executor.launch, Executor.new.
  rewrite decide_False by lia. eexists. split; [done|].
  set (e0 := {| Executor.max_workers := _ |}).
  destruct (submit_pairs_count host_ports_pairs e0) as [Hall Hmax].
  split_and!.
  - by rewrite submit_max_workers, Hmax.
  - rewrite submit_all_tasks, app_assoc, Hall. by rewrite <-!app_assoc.
  - intros Hfit.
    destruct (submit_pairs_roomy host_ports_pairs e0 1) as (Hroom & Hrun & _).
    { split; [done|]. simpl. lia. }
    apply (submit_roomy Executor.Reporter) in Hroom as [[Hw _] Hr].
    by rewrite Hr, Hrun.
Qed.

Lemma pool_sized_by_config_witness :
  ∃ e,
    Executor.launch (Some 2) [("10.{team}.1.5", [22]); ("10.{team}.1.6", [80])]
      = Ret e ∧
    Executor.max_workers e = 3 ∧
    Executor.running e =
      [Executor.CheckHost ("10.{team}.1.5", [22]);
       Executor.CheckHost ("10.{team}.1.6", [80]); Executor.Reporter] ∧
    Executor.waiting e = [].
Proof.
  destruct (pool_sized_by_config (Some 2)
    [("10.{team}.1.5", [22]); ("10.{team}.1.6", [80])])
    as (e & He & Hmax & _ & Hfit); [done|].
  exists e. destruct Hfit as [Hr Hw]; [done|]. done.
Defined.

(** C6 as stated fails on the code: with the default [max_workers] and
    an inventory of five entries the capacity is 5, not 6, and the
    reporter waits unstarted behind the five workers. *)
Lemma pool_not_sized_to_inventory :
  let inventory :=
    [("10.{team}.1.1", [22]); ("10.{team}.1.2", [22]);
     ("10.{team}.1.3", [22]); ("10.{team}.1.4", [22]);
     ("10.{team}.1.5", [22])] in
  ∃ e,
    Executor.launch None inventory = Ret e ∧
    Executor.max_workers e ≠ Z.of_nat (length inventory) + 1 ∧
    Executor.waiting e = [Executor.Reporter].
Proof. intros inventory. by eexists. Qed.

(** ** The supervisor *)

Section supervisor_facts.
Import Supervisor.

Lemma thread_errors_uninterrupted fs :
  Finished (Raise KeyboardInterrupt) ∉ fs →
  (thread_errors fs).2 = Ret () ∧ awaited (thread_errors fs).1 = [].
Proof.
  induction fs as [|f fs IH]; intros Hfs; [done|].
  apply not_elem_of_cons in Hfs as [Hf Hfs]. specialize (IH Hfs).
  destruct f as [|[[]|[msg|]]]; simpl; try done.
  destruct (thread_errors fs). simpl in *. done.
Qed.

Lemma awaited_app o1 o2 : awaited (o1 ++ o2) = awaited o1 ++ awaited o2.
Proof.
  induction o1 as [|a o1 IH]; [done|]. destruct a; simpl; by rewrite ?IH.
Qed.

Lemma awaited_print ls : awaited (Print <$> ls) = [].
Proof. by induction ls. Qed.

Lemma poll_once_uninterrupted p :
  uninterrupted p →
  (poll_once p).2 = Ret () ∧ awaited (poll_once p).1 = [].
Proof.
  intros [Hint Hfs]. unfold poll_once. rewrite Hint.
  set (finished := filter _ _).
  assert (Finished (Raise KeyboardInterrupt) ∉ finished) as Hfin.
  { unfold finished. rewrite list_elem_of_filter. naive_solver. }
  case_decide.
  - destruct (thread_errors_uninterrupted _ Hfin) as [Hr Ha].
    destruct (thread_errors finished) as [o r]. simpl in *. subst r.
    split; [done|]. simpl.
    by rewrite !awaited_app, Ha, awaited_print.
  - split; [done|]. simpl. by rewrite !awaited_app, awaited_print.
Qed.

Lemma poll_once_interrupted p :
  interrupt p = true →
  (poll_once p).2 = Raise KeyboardInterrupt.
Proof.
  intros Hint. unfold poll_once. rewrite Hint.
  set (finished := filter _ _). case_decide; [|done].
  assert (∀ fs, (thread_errors fs).2 = Ret () ∨
                (thread_errors fs).2 = Raise KeyboardInterrupt) as Hte.
  { induction fs as [|[|[[]|[msg|]]] fs IH]; simpl; auto.
    destruct (thread_errors fs); simpl in *; auto. }
  destruct (Hte finished) as [Hr|Hr];
    destruct (thread_errors finished) as [o r]; simpl in *; by subst r.
Qed.

Lemma poll_once_warns p :
  filter (λ f, done f = true) (futures p) ≠ [] →
  ∃ o, (poll_once p).1 =
    Print ("Warning: " +:+
           str (Z.of_nat (length (filter (λ f, done f = true) (futures p))))
           +:+ " threads finished unexpectedly") :: o.
Proof.
  intros Hne. unfold poll_once. rewrite decide_True by done.
  destruct (thread_errors _) as [o [[]|e]]; simpl; eauto.
  destruct (interrupt p); simpl; eauto.
Qed.

Lemma monitor_uninterrupted polls sh st :
  Forall uninterrupted polls →
  monitor polls sh st =
  {| at_phase := at_phase st; stop_event := stop_event st;
     out := out st ++ concat ((λ p, (poll_once p).1) <$> polls) |}.
Proof.
  revert st. induction polls as [|p polls IH]; intros st Hq.
  - destruct st. simpl. by rewrite app_nil_r.
  - apply Forall_cons in Hq as [Hp Hq].
    destruct (poll_once_uninterrupted p Hp) as [Hr _].
    cbn [monitor]. rewrite fmap_cons. cbn [concat].
    destruct (poll_once p) as [o r]. simpl in Hr. subst r.
    rewrite (IH _ Hq). simpl. by rewrite <-app_assoc.
Qed.

Lemma monitor_app polls1 polls2 sh st :
  Forall uninterrupted polls1 →
  monitor (polls1 ++ polls2) sh st = monitor polls2 sh (monitor polls1 sh st).
Proof.
  revert st. induction polls1 as [|p polls1 IH]; intros st Hq; [done|].
  apply Forall_cons in Hq as [Hp Hq].
  destruct (poll_once_uninterrupted p Hp) as [Hr _].
  cbn [monitor app]. destruct (poll_once p) as [o r]. simpl in Hr. subst r.
  by apply IH.
Qed.

Lemma await_all_awaited (i : nat) js :
  Joined (Raise KeyboardInterrupt) ∉ js →
  (await_all i js).2 = Ret () ∧
  awaited (await_all i js).1 = seq i (length js).
Proof.
  revert i. induction js as [|j js IH]; intros i Hjs; [done|].
  apply not_elem_of_cons in Hjs as [Hj Hjs].
  specialize (IH (S i) Hjs). simpl.
  destruct j as [[[]|[msg|]]|]; try done;
    destruct (await_all (S i) js) as [o r]; simpl in *;
    destruct IH as [-> ->]; done.
Qed.

Lemma poll_once_no_await p : awaited (poll_once p).1 = [].
Proof.
  assert (∀ fs, awaited (thread_errors fs).1 = []) as Hte.
  { induction fs as [|[|[[]|[msg|]]] fs IH]; simpl; auto.
    destruct (thread_errors fs); simpl in *; auto. }
  unfold poll_once. set (finished := filter _ _).
  specialize (Hte finished). case_decide.
  - destruct (thread_errors finished) as [o [[]|e]]; simpl in *; [|done].
    destruct (interrupt p); simpl;
      by rewrite !awaited_app, Hte, awaited_print.
  - destruct (interrupt p); simpl; by rewrite !awaited_app, awaited_print.
Qed.

Lemma concat_no_await polls :
  awaited (concat ((λ p, (poll_once p).1) <$> polls)) = [].
Proof.
  induction polls as [|p polls IH]; [done|].
  rewrite fmap_cons. cbn [concat].
  by rewrite awaited_app, poll_once_no_await, IH.
Qed.
End supervisor_facts.

(** C3, as the code has it.  While the supervisor is in its loop, a
    worker or the reporter found terminated (returned, or failed with
    an Exception) with the stop event unset is logged at that pass, with
    a warning that counts the finished units, and the supervisor stays
    in the loop: the stop event is not set and no unit is awaited, for
    however many passes.  The operator's interrupt is what ends the
    loop: then the stop event is set, the final status is printed, and
    every unit is awaited in turn before the pool is shut down. *)
Theorem dead_unit_only_logged (polls : list Supervisor.poll)
    (sh : Supervisor.shutdown) (last : Supervisor.poll) :
  Forall Supervisor.uninterrupted polls →
  let st := Supervisor.reset_check polls sh in
  (Supervisor.at_phase st = Supervisor.Running ∧
   Supervisor.stop_event st = false ∧
   Supervisor.awaited (Supervisor.out st) = [] ∧
   Supervisor.out st =
     concat ((λ p, (Supervisor.poll_once p).1) <$> polls)) ∧
  (∀ p, p ∈ polls →
     filter (λ f, Supervisor.done f = true) (Supervisor.futures p) ≠ [] →
     ∃ o, (Supervisor.poll_once p).1 =
       Print ("Warning: " +:+
              str (Z.of_nat (length (filter (λ f, Supervisor.done f = true)
                                       (Supervisor.futures p)))) +:+
              " threads finished unexpectedly") :: o) ∧
  (Supervisor.interrupt last = true →
   Supervisor.Joined (Raise KeyboardInterrupt) ∉ Supervisor.joins sh →
   let st' := Supervisor.reset_check (polls ++ [last]) sh in
   Supervisor.at_phase st' = Supervisor.Stopped (Ret ()) ∧
   Supervisor.stop_event st' = true ∧
   Supervisor.awaited (Supervisor.out st') =
     seq 0 (length (Supervisor.joins sh)) ∧
   Supervisor.out st' =
     Supervisor.out st ++ (Supervisor.poll_once last).1 ++
     [Print (Snapshot.nl +:+ "Reset check stopped by user (Ctrl+C)");
      Print "Stopping all monitoring threads due to: User interruption"] ++
     (Print <$> Snapshot.final (Supervisor.final_down sh)) ++
     [Print "Waiting for threads to complete..."] ++
     (Supervisor.await_all 0 (Supervisor.joins sh)).1 ++
     [Print "All threads stopped. Exiting gracefully...";
      ExecutorShutdown]).
Proof.
  intros Hq st. unfold st, Supervisor.reset_check.
  rewrite monitor_uninterrupted by done.
  simpl. split_and!; try done.
  - apply concat_no_await.
  - intros p _ Hfin. by apply poll_once_warns.
  - intros Hint Hjoins. rewrite monitor_app by done.
    rewrite (monitor_uninterrupted polls) by done. cbn [Supervisor.monitor].
    pose proof (poll_once_interrupted last Hint) as Hr.
    pose proof (poll_once_no_await last) as Hna.
    destruct (Supervisor.poll_once last) as [o r]. simpl in Hr, Hna. subst r.
    unfold Supervisor.interrupted, Supervisor._shutdown_threads.
    destruct (await_all_awaited 0 _ Hjoins) as [Hr Ha].
    destruct (Supervisor.await_all 0 (Supervisor.joins sh)) as [o2 r2].
    simpl in Hr, Ha. subst r2. simpl. split_and!; try done.
    + rewrite !awaited_app, concat_no_await, Hna. simpl.
      rewrite !awaited_app, awaited_print. simpl.
      by rewrite !app_nil_r.
    + by rewrite <-!app_assoc.
Qed.

(** One worker has died with an error, the other runs; two passes, then
    the operator's interrupt in the third. *)
Lemma dead_unit_only_logged_witness :
  let dead := {| Supervisor.futures :=
                   [Supervisor.Finished (Raise (Exception "boom"));
                    Supervisor.Pending];
                 Supervisor.down := ∅; Supervisor.interrupt := false |} in
  let last := {| Supervisor.futures := Supervisor.futures dead;
                 Supervisor.down := ∅; Supervisor.interrupt := true |} in
  let sh := {| Supervisor.final_down := ∅;
               Supervisor.joins := [Supervisor.Joined (Raise (Exception "boom"));
                                    Supervisor.TimedOut] |} in
  let st := Supervisor.reset_check [dead; dead] sh in
  let st' := Supervisor.reset_check ([dead; dead] ++ [last]) sh in
  (Supervisor.at_phase st = Supervisor.Running ∧
   Supervisor.stop_event st = false ∧
   Supervisor.awaited (Supervisor.out st) = []) ∧
  (Supervisor.at_phase st' = Supervisor.Stopped (Ret ()) ∧
   Supervisor.stop_event st' = true ∧
   Supervisor.awaited (Supervisor.out st') = [0; 1]%nat).
Proof.
  intros dead last sh st st'.
  assert (Forall Supervisor.uninterrupted [dead; dead]) as Hq.
  { repeat constructor; simpl; by intros [[=]|[[=]|[]%elem_of_nil]%elem_of_cons]%elem_of_cons. }
  destruct (dead_unit_only_logged [dead; dead] sh last Hq)
    as ((H1 & H2 & H3 & _) & _ & Hstop).
  split; [done|].
  destruct Hstop as (H4 & H5 & H6 & _); [done| |done].
  simpl. by intros [[=]|[[=]|[]%elem_of_nil]%elem_of_cons]%elem_of_cons.
Defined.

(** C3 as stated fails on the code: a pass that finds a worker dead of
    an error, the stop event unset, prints the warning and the error
    and leaves the supervisor in its loop with the stop event unset,
    nothing awaited and no final status. *)
Lemma dead_unit_does_not_stop :
  let dead := {| Supervisor.futures :=
                   [Supervisor.Finished (Raise (Exception "boom"));
                    Supervisor.Pending];
                 Supervisor.down := {[ (2, "10.2.1.5") ]};
                 Supervisor.interrupt := false |} in
  let sh := {| Supervisor.final_down := {[ (2, "10.2.1.5") ]};
               Supervisor.joins := [Supervisor.Joined (Raise (Exception "boom"));
                                    Supervisor.Joined (Ret ())] |} in
  let st := Supervisor.reset_check [dead] sh in
  Supervisor.at_phase st = Supervisor.Running ∧
  Supervisor.stop_event st ≠ true ∧
  Supervisor.out st =
    [Print "Warning: 1 threads finished unexpectedly";
     Print "Thread error: boom";
     Print "---------- HOSTS DOWN STATUS ----------";
     Print "  TEAM 2 - 10.2.1.5";
     Wait 30000].
Proof. intros dead sh st. split_and!; [reflexivity|discriminate|]. by vm_compute. Qed.

(** ** The discovery calls *)

Section scan_facts.
Import Scan.
Variable run : subprocess.

Lemma scan_hosts_from_failed rustscan_path (k : nat) hosts ports results :
  (∀ (j : nat) host, hosts !! j = Some host →
     failed (run (k + j)%nat (host_cmd rustscan_path host ports))) →
  (scan_hosts_from run rustscan_path k hosts ports results).1 = results.
Proof.
  revert k results. induction hosts as [|host hosts IH];
    intros k results Hfail; [done|].
  pose proof (Hfail O host eq_refl) as H0.
  replace (k + 0)%nat with k in H0 by lia.
  assert (∀ (j : nat) h, hosts !! j = Some h →
            failed (run (S k + j)%nat (host_cmd rustscan_path h ports)))
    as Hrest.
  { intros j h Hj. replace (S k + j)%nat with (k + S j)%nat by lia.
    by apply Hfail. }
  cbn [scan_hosts_from].
  specialize (IH (S k) results Hrest).
  destruct (run k (host_cmd rustscan_path host ports))
    as [returncode stdout stderr| |msg]; simpl in H0.
  - rewrite decide_False by done.
    destruct (scan_hosts_from run rustscan_path (S k) hosts ports results).
    done.
  - destruct (scan_hosts_from run rustscan_path (S k) hosts ports results).
    done.
  - destruct (scan_hosts_from run rustscan_path (S k) hosts ports results).
    done.
Qed.
End scan_facts.

(** C5, as the code has it.  With the scan binary in place,
    [scan_subnet] returns the empty list whenever the external scan
    times out, cannot be run or ends with a non-zero return code, and
    [scan_hosts] never raises and returns the empty mapping when the
    scan of every host ends so.  With the platform unsupported or the
    binary missing, both calls raise to their caller. *)
Theorem scan_failure_results (m : Scan.machine) (run : Scan.subprocess) :
  (∀ rustscan_path, Scan.get_rustscan_binary m = Ret rustscan_path →
     (∀ subnet ports,
        Scan.failed (run O (Scan.subnet_cmd rustscan_path subnet ports)) →
        (Scan.scan_subnet m run subnet ports).1 = Ret []) ∧
     (∀ hosts ports, ∃ results,
        (Scan.scan_hosts m run hosts ports).1 = Ret results ∧
        ((∀ (j : nat) host, hosts !! j = Some host →
            Scan.failed (run j (Scan.host_cmd rustscan_path host ports))) →
         results = ∅))) ∧
  (∀ e, Scan.get_rustscan_binary m = Raise e →
     (∀ subnet ports, (Scan.scan_subnet m run subnet ports).1 = Raise e) ∧
     (∀ hosts ports, (Scan.scan_hosts m run hosts ports).1 = Raise e)).
Proof.
  split.
  - intros rustscan_path Hbin. split.
    + intros subnet ports Hfail. unfold Scan.scan_subnet. rewrite Hbin.
      destruct (run O _) as [returncode stdout stderr| |msg];
        simpl in *; [|done..].
      by rewrite decide_False.
    + intros hosts ports. unfold Scan.scan_hosts. rewrite Hbin.
      pose proof (scan_hosts_from_failed run rustscan_path 0 hosts ports ∅)
        as Hempty.
      destruct (Scan.scan_hosts_from run rustscan_path 0 hosts ports ∅)
        as [results printed].
      exists results. split; [done|]. intros Hfail. by apply Hempty.
  - intros e Hbin. unfold Scan.scan_subnet, Scan.scan_hosts.
    by rewrite Hbin.
Qed.

Lemma scan_failure_results_witness :
  let m := {| Scan.system := "Linux"; Scan.binary_exists := true |} in
  let run : Scan.subprocess := λ k cmd, Scan.TimeoutExpired in
  (Scan.scan_subnet m run "10.5.1.0/24" [22; 80]).1 = Ret [] ∧
  (Scan.scan_subnet {| Scan.system := "Plan9"; Scan.binary_exists := true |}
     run "10.5.1.0/24" [22; 80]).1 =
    Raise (Exception "Platform not supported: Plan9").
Proof.
  intros m run. split.
  - apply (proj1 (scan_failure_results m run) "scanning/rustscan-linux" eq_refl).
    exact I.
  - apply (proj2 (scan_failure_results
             {| Scan.system := "Plan9"; Scan.binary_exists := true |} run)
             _ eq_refl).
Defined.

(** C5 as stated fails on the code: with the binary missing both calls
    raise FileNotFoundError to the caller instead of returning an empty
    result. *)
Lemma scan_raises_without_binary :
  let m := {| Scan.system := "Linux"; Scan.binary_exists := false |} in
  let run : Scan.subprocess := λ k cmd, Scan.TimeoutExpired in
  (Scan.scan_subnet m run "10.5.1.0/24" [22; 80]).1 ≠ Ret [] ∧
  (Scan.scan_hosts m run ["10.5.1.17"] [22; 80]).1 ≠ Ret ∅ ∧
  (Scan.scan_subnet m run "10.5.1.0/24" [22; 80]).1 =
    Raise (Exception "RustScan binary not found for Linux").
Proof. intros m run. by split_and!. Qed.

(** ** Snapshots under the lock *)

Global Instance entry_le_total : Total Snapshot.entry_le.
Proof.
  intros [t1 h1] [t2 h2]. unfold Snapshot.entry_le. simpl.
  destruct (Z.lt_trichotomy t1 t2) as [?|[->|?]]; [auto| |auto].
  destruct (total String.le h1 h2); auto.
Qed.

Section locking_facts.
Import Locking.
Implicit Types (s : sys) (a : agent) (d : registry) (i j : nat).

Lemma atomic_lines k d :
  atomic k d =
  if decide (d ≠ ∅)
  then header k d :: (Snapshot.entry_line <$> Snapshot.sorted d) ++ footer k
  else when_empty k.
Proof.
  destruct k; simpl; unfold Snapshot.digest, Snapshot.interim,
    Snapshot.final; case_decide; simpl; by rewrite ?app_nil_r.
Qed.

Lemma run_snoc schedule i s : run (schedule ++ [i]) s = step i (run schedule s).
Proof. unfold run. by rewrite foldl_snoc. Qed.

Lemma seen_now s0 schedule : seen s0 schedule (down_hosts (run schedule s0)).
Proof. exists (length schedule). split; [done|]. by rewrite take_ge. Qed.

Lemma seen_snoc s0 schedule i d :
  seen s0 schedule d → seen s0 (schedule ++ [i]) d.
Proof.
  intros (n & Hn & Hd). exists n. split.
  - rewrite length_app. simpl. lia.
  - by rewrite take_app_le.
Qed.

Lemma invariant_weaken (H1 H2 : registry → Prop) s :
  (∀ d, H1 d → H2 d) → invariant H1 s → invariant H2 s.
Proof.
  intros Hw [Hl Hs]. split; [done|]. intros i a k Hi Hk.
  specialize (Hs i a k Hi Hk). unfold snap_ok in *.
  destruct (pc a); try done. destruct Hs as (d' & ? & ?). eauto.
Qed.

Lemma invariant_init H ops d : invariant H (init ops d).
Proof.
  split; simpl; intros i a; rewrite list_lookup_fmap;
    destruct (ops !! i); intros; simplify_eq/=; done.
Qed.

(** An agent outside its block is not affected by the registry. *)
Lemma snap_ok_outside H k d d' a :
  holds_lock (pc a) = false → snap_ok H k d a → snap_ok H k d' a.
Proof. unfold snap_ok. by destruct (pc a). Qed.

Lemma inside_holds a d :
  holds_lock (pc a) = true → pc a ≠ Closing →
  holds_lock (pc (inside a d).1) = true ∧ code (inside a d).1 = code a.
Proof.
  unfold inside. destruct a as [c p pr]; simpl.
  destruct c as [t h o| k |], p as [| |[]| | |[|e l]| |]; simpl; done.
Qed.

Lemma inside_snap H k a d :
  code a = Snap k → holds_lock (pc a) = true → pc a ≠ Closing →
  snap_ok H k d a →
  (inside a d).2 = d ∧ snap_ok H k d (inside a d).1.
Proof.
  unfold inside, snap_ok. destruct a as [c p pr]; simpl. intros -> Hp Hc.
  destruct p as [| |[]| | |[|e l]| |]; simpl; try done.
  - intros ->. done.
  - intros [-> Hb]. split; [done|]. split; [done|].
    symmetry in Hb. by apply bool_decide_eq_true in Hb.
  - intros [-> Hb]. split; [done|]. rewrite atomic_lines.
    symmetry in Hb. apply bool_decide_eq_false in Hb.
    by rewrite decide_False.
  - intros [-> Hd]. split; [done|]. exists []. by rewrite app_nil_r.
  - intros (l0 & Hl & -> & Hd). split; [done|].
    rewrite atomic_lines, decide_True by done.
    rewrite Hl, app_nil_r. done.
  - intros (l0 & Hl & -> & Hd). split; [done|].
    exists (l0 ++ [e]). rewrite <-app_assoc. split; [done|].
    rewrite fmap_app. done.
Qed.

(** The kinds of move, as equations. *)
Lemma step_acquire i s a :
  agents s !! i = Some a → pc a = Outside → lock s = None →
  step i s = {| lock := Some i; down_hosts := down_hosts s;
                agents := <[i := move Entered [] a]> (agents s) |}.
Proof. intros Hi Hp Hl. unfold step. by rewrite Hi, Hp, Hl. Qed.

Lemma step_inside i s a :
  agents s !! i = Some a → holds_lock (pc a) = true → pc a ≠ Closing →
  step i s = {| lock := lock s; down_hosts := (inside a (down_hosts s)).2;
                agents := <[i := (inside a (down_hosts s)).1]> (agents s) |}.
Proof.
  intros Hi Hp Hc. unfold step. rewrite Hi.
  destruct (inside a (down_hosts s)) as [a' d']. by destruct (pc a).
Qed.

Lemma step_release i s a :
  agents s !! i = Some a → pc a = Closing →
  step i s = {| lock := None; down_hosts := down_hosts s;
                agents := <[i := move Finished [] a]> (agents s) |}.
Proof. intros Hi Hp. unfold step. by rewrite Hi, Hp. Qed.

Lemma step_finished i s a :
  agents s !! i = Some a → pc a = Finished → step i s = s.
Proof. intros Hi Hp. unfold step. by rewrite Hi, Hp. Qed.

(** Rewrite the innermost pending move with the equation that fits. *)
Ltac advance look :=
  match goal with
  | |- context [step ?i ?s] =>
      lazymatch s with
      | context [step] => fail
      | _ =>
          first
            [ erewrite (step_acquire i s); [|cbn [agents]; apply look|done..]
            | erewrite (step_inside i s); [|cbn [agents]; apply look|done..]
            | erewrite (step_release i s); [|cbn [agents]; apply look|done]
            | erewrite (step_finished i s); [|cbn [agents]; apply look|done] ];
          cbn [inside move code pc printed fst snd lock agents down_hosts negb];
          rewrite ?list_insert_insert_eq
      end
  end.

(** A report block that runs through with nobody in between does what
    [Registry.report] does. *)
Lemma report_block_atomic i s a team host open_port :
  lock s = None → agents s !! i = Some a →
  code a = Report team host open_port → pc a = Outside →
  let s' := run [i; i; i; i; i] s in
  down_hosts s' = (Registry.report team host open_port (down_hosts s)).1 ∧
  lock s' = None ∧
  ∃ a', agents s' !! i = Some a' ∧ pc a' = Finished ∧
        printed a' =
          printed a ++ (Registry.report team host open_port (down_hosts s)).2.
Proof.
  destruct s as [l d ags], a as [c p pr].
  cbn [lock agents code pc down_hosts printed].
  intros -> Hi -> ->. pose proof (lookup_lt_Some _ _ _ Hi) as Hlt.
  assert (Hlook : ∀ (x : agent), <[i := x]> ags !! i = Some x).
  { intros x. by apply list_lookup_insert_eq. }
  unfold run. cbn [foldl].
  advance Hi. advance Hlook.
  unfold Registry.report.
  destruct open_port; cbn [negb].
  - destruct (decide ((team, host) ∈ d)) as [Hin|Hin].
    + rewrite bool_decide_eq_true_2 by done.
      advance Hlook. advance Hlook. advance Hlook.
      split_and!; [done..|]. eexists. split; [by apply Hlook|].
      unfold move. cbn [pc printed code]. by rewrite !app_nil_r.
    + rewrite bool_decide_eq_false_2 by done.
      advance Hlook. advance Hlook. advance Hlook.
      split_and!; [done..|]. eexists. split; [by apply Hlook|].
      unfold move. cbn [pc printed code]. by rewrite !app_nil_r.
  - destruct (decide ((team, host) ∉ d)) as [Hin|Hin].
    + rewrite bool_decide_eq_true_2 by done.
      advance Hlook. advance Hlook. advance Hlook.
      split_and!; [done..|]. eexists. split; [by apply Hlook|].
      unfold move. cbn [pc printed code]. by rewrite !app_nil_r.
    + rewrite bool_decide_eq_false_2 by done.
      advance Hlook. advance Hlook. advance Hlook.
      split_and!; [done..|]. eexists. split; [by apply Hlook|].
      unfold move. cbn [pc printed code]. by rewrite !app_nil_r.
Qed.

(** A move inside the block, by the agent that holds the lock. *)
Lemma invariant_step_inside (H : registry → Prop) i s a :
  invariant H s → agents s !! i = Some a →
  holds_lock (pc a) = true → pc a ≠ Closing →
  invariant H
    (let '(a', d') := inside a (down_hosts s) in
     {| lock := lock s; down_hosts := d';
        agents := <[i := a']> (agents s) |}).
Proof.
  intros [Hl Hs] Hi Hp Hc.
  pose proof (lookup_lt_Some _ _ _ Hi) as Hlt.
  assert (lock s = Some i) as Hlock by by apply (Hl i a Hi).
  destruct (inside_holds a (down_hosts s) Hp Hc) as [Hp' Hcode].
  destruct (inside a (down_hosts s)) as [a' d'] eqn:Hin. simpl in *.
  split; simpl.
  - intros j b Hj. destruct (decide (j = i)) as [->|Hne].
    + rewrite list_lookup_insert_eq in Hj by done. by simplify_eq/=.
    + rewrite list_lookup_insert_ne in Hj by done. by apply Hl.
  - intros j b k Hj Hk. destruct (decide (j = i)) as [->|Hne].
    + rewrite list_lookup_insert_eq in Hj by done. simplify_eq/=.
      rewrite Hcode in Hk.
      destruct (inside_snap H k a (down_hosts s) Hk Hp Hc (Hs i a k Hi Hk))
        as [Hd Hok].
      rewrite Hin in Hd, Hok. simpl in *. by subst d'.
    + rewrite list_lookup_insert_ne in Hj by done.
      apply (snap_ok_outside H k (down_hosts s)); [|by apply (Hs j)].
      destruct (holds_lock (pc b)) eqn:Hb; [|done].
      apply (Hl j b Hj) in Hb. congruence.
Qed.

(** Preservation: one move of any agent keeps the invariant, the
    current registry value being one that [H] knows. *)
Lemma invariant_step (H : registry → Prop) i s :
  H (down_hosts s) → invariant H s → invariant H (step i s).
Proof.
  intros Hnow Hinv. pose proof Hinv as [Hl Hs]. unfold step.
  destruct (agents s !! i) as [a|] eqn:Hi; [|done].
  pose proof (lookup_lt_Some _ _ _ Hi) as Hlt.
  pose proof (Hl i a Hi) as Hli.
  assert (Hothers : ∀ j b, j ≠ i → agents s !! j = Some b →
            lock s = Some i → holds_lock (pc b) = false).
  { intros j b Hne Hj Hlock. destruct (holds_lock (pc b)) eqn:Hb; [|done].
    apply (Hl j b Hj) in Hb. congruence. }
  destruct (pc a) eqn:Hpc.
  - (* Outside: acquire, or wait *)
    destruct (lock s) as [h|] eqn:Hlock; [done|].
    split; simpl.
    + intros j b Hj. destruct (decide (j = i)) as [->|Hne].
      * rewrite list_lookup_insert_eq in Hj by done. by simplify_eq/=.
      * rewrite list_lookup_insert_ne in Hj by done.
        specialize (Hl j b Hj). split; [congruence|].
        intros Hb. apply Hl in Hb. done.
    + intros j b k Hj Hk. destruct (decide (j = i)) as [->|Hne].
      * rewrite list_lookup_insert_eq in Hj by done. simplify_eq/=.
        specialize (Hs i a k Hi Hk). unfold snap_ok in *. simpl.
        rewrite Hpc in Hs. by rewrite Hs.
      * rewrite list_lookup_insert_ne in Hj by done. by apply (Hs j).
  - apply (invariant_step_inside H i s a); try rewrite Hpc; done.
  - apply (invariant_step_inside H i s a); try rewrite Hpc; done.
  - apply (invariant_step_inside H i s a); try rewrite Hpc; done.
  - apply (invariant_step_inside H i s a); try rewrite Hpc; done.
  - apply (invariant_step_inside H i s a); try rewrite Hpc; done.
  - (* Closing: release *)
    assert (lock s = Some i) as Hlock by by apply Hli.
    split; simpl.
    + intros j b Hj. destruct (decide (j = i)) as [->|Hne].
      * rewrite list_lookup_insert_eq in Hj by done. by simplify_eq/=.
      * rewrite list_lookup_insert_ne in Hj by done.
        rewrite (Hothers j b Hne Hj Hlock). done.
    + intros j b k Hj Hk. destruct (decide (j = i)) as [->|Hne].
      * rewrite list_lookup_insert_eq in Hj by done. simplify_eq/=.
        specialize (Hs i a k Hi Hk). unfold snap_ok in *. simpl.
        rewrite Hpc in Hs. exists (down_hosts s).
        by rewrite app_nil_r.
      * rewrite list_lookup_insert_ne in Hj by done. by apply (Hs j).
  - done.
Qed.
End locking_facts.

(** C7. The periodic digest, the interim status block and the final
    status each list the down entries in ascending (team, host) order,
    every entry once; and under any interleaving of reports, clears and
    listings, each moving one statement at a time under the lock, what a
    finished listing has printed is the listing of the registry as it
    stood at one instant of the run, never a mixture of two values. *)
Theorem snapshot_sorted_and_atomic :
  (∀ d : registry,
     Sorted Snapshot.entry_le (Snapshot.sorted d) ∧
     Snapshot.sorted d ≡ₚ elements d) ∧
  (∀ (k : Locking.kind) (d : registry),
     d ≠ ∅ →
     Locking.atomic k d =
       Locking.header k d ::
       (Snapshot.entry_line <$> Snapshot.sorted d) ++ Locking.footer k) ∧
  (∀ (ops : list Locking.op) (d0 : registry) (schedule : list nat)
     (i : nat) (a : Locking.agent) (k : Locking.kind),
     Locking.agents (Locking.run schedule (Locking.init ops d0)) !! i
       = Some a →
     Locking.code a = Locking.Snap k →
     Locking.pc a = Locking.Finished →
     ∃ n : nat, (n ≤ length schedule)%nat ∧
       Locking.printed a =
         Locking.atomic k
           (Locking.down_hosts
              (Locking.run (take n schedule) (Locking.init ops d0)))).
Proof.
  split_and!.
  - intros d. split.
    + apply Sorted_merge_sort. apply _.
    + apply merge_sort_Permutation.
  - intros k d Hd. by rewrite atomic_lines, decide_True.
  - intros ops d0 schedule i a k Hi Hk Hpc.
    assert (Locking.invariant (Locking.seen (Locking.init ops d0) schedule)
              (Locking.run schedule (Locking.init ops d0))) as [_ Hs].
    { clear. induction schedule as [|j schedule IH] using rev_ind.
      - apply invariant_init.
      - rewrite run_snoc. apply invariant_step.
        + apply seen_snoc, seen_now.
        + eapply invariant_weaken; [|exact IH]. intros d. apply seen_snoc. }
    specialize (Hs i a k Hi Hk). unfold Locking.snap_ok in Hs.
    rewrite Hpc in Hs. destruct Hs as (d' & (n & Hn & <-) & Hpr). eauto.
Qed.

(** A digest entered between two reports: the second report waits for
    the lock, and the digest lists the one entry it found. *)
Lemma snapshot_sorted_and_atomic_witness :
  let ops := [Locking.Report 2 "10.2.1.5" false;
              Locking.Snap (Locking.Digest "12:00");
              Locking.Report 1 "10.1.1.5" false] in
  let schedule := [0; 0; 0; 0; 0; 1; 1; 2; 1; 1; 2; 1; 1; 1; 2; 2]%nat in
  let a := {| Locking.code := Locking.Snap (Locking.Digest "12:00");
              Locking.pc := Locking.Finished;
              Locking.printed :=
                Snapshot.digest "12:00" {[ (2, "10.2.1.5") ]} |} in
  ∃ n : nat,
    (n ≤ length schedule)%nat ∧
    Locking.printed a =
      Locking.atomic (Locking.Digest "12:00")
        (Locking.down_hosts
           (Locking.run (take n schedule) (Locking.init ops ∅))).
Proof.
  intros ops schedule a.
  apply (proj2 (proj2 snapshot_sorted_and_atomic) ops ∅ schedule 1%nat a
           (Locking.Digest "12:00")).
  - vm_compute. reflexivity.
  - reflexivity.
  - reflexivity.
Defined.

Example digest_of_two :
  Snapshot.digest "12:00" {[ (2, "10.2.1.5"); (1, "10.1.1.9"); (1, "10.1.1.5") ]} =
  [Snapshot.nl +:+ "=== STATUS REPORT [12:00]: 3 hosts currently down ===";
   "  TEAM 1 - 10.1.1.5"; "  TEAM 1 - 10.1.1.9"; "  TEAM 2 - 10.2.1.5";
   "=================================================="].
Proof. by vm_compute. Qed.

(* ================================================================= *)
(** * Further properties *)

(** ** The team range *)

Lemma range_elem_of (start stop t : Z) :
  t ∈ Worker.range start stop ↔ start ≤ t < stop.
Proof.
  unfold Worker.range. rewrite list_elem_of_fmap. split.
  - intros (i & -> & Hi%elem_of_seq). lia.
  - intros Ht. exists (Z.to_nat (t - start)). split; [lia|].
    apply elem_of_seq. lia.
Qed.

Lemma range_ascending (n : nat) (start : Z) :
  StronglySorted Z.lt ((λ i : nat, start + Z.of_nat i) <$> seq 0 n).
Proof.
  revert start. induction n as [|n IH]; intros start; [constructor|].
  cbn [seq fmap list_fmap]. constructor.
  - rewrite <-fmap_S_seq, <-list_fmap_compose.
    erewrite list_fmap_ext; [apply (IH (start + 1))|].
    intros i x _. simpl. lia.
  - apply Forall_forall. intros x (i & -> & Hi%elem_of_seq)%list_elem_of_fmap.
    lia.
Qed.

(** X1. [self.teams] holds exactly the teams from [start] to [end], both
    included, each once and in increasing order; it is empty when
    [end] is below [start]. *)
Theorem config_teams_closed_range (teams_start teams_end : Z) :
  (∀ t, t ∈ Worker.config_teams teams_start teams_end ↔
        teams_start ≤ t ≤ teams_end) ∧
  StronglySorted Z.lt (Worker.config_teams teams_start teams_end) ∧
  length (Worker.config_teams teams_start teams_end) =
    Z.to_nat (teams_end - teams_start + 1).
Proof.
  unfold Worker.config_teams. split_and!.
  - intros t. rewrite range_elem_of. lia.
  - apply range_ascending.
  - unfold Worker.range. rewrite length_fmap, length_seq. lia.
Qed.

Lemma config_teams_closed_range_witness :
  3 ∈ Worker.config_teams 1 5 ∧ 5 ∈ Worker.config_teams 1 5.
Proof.
  split; apply (proj1 (config_teams_closed_range 1 5)); lia.
Defined.

(** ** Un-substitution of a discovered host *)

Lemma unformat_puts_token_back (prefix placeholder psuffix rest : string)
    (c : ascii) (team : Z) :
  c ≠ "{"%char → c ≠ "}"%char →
  PyStr.occurs c placeholder = false →
  Unformat.unformat
    (prefix +:+ PyStr.token placeholder +:+ String c psuffix)
    (prefix +:+ str team +:+ String c rest) team =
  Some (prefix +:+ PyStr.token placeholder +:+ String c rest,
        [String c EmptyString]).
Proof.
  intros Hc1 Hc2 Hc.
  destruct (str_head team) as (d & ds & Hstr & Hd).
  unfold Unformat.unformat, PyStr.token. rewrite Hstr.
  set (fuel := S (String.length (prefix +:+ String d ds +:+ String c rest))).
  pose proof (loop_common_prefix prefix EmptyString
    (("{" +:+ placeholder +:+ "}") +:+ String c psuffix)
    (String d ds +:+ String c rest) (String d ds) fuel EmptyString) as Hloop.
  change (EmptyString +:+ ?s) with s in Hloop.
  simpl String.length in Hloop at 2.
  rewrite Hloop; clear Hloop.
  2:{ unfold fuel. rewrite str_length_app. lia. }
  assert (fuel - String.length prefix =
          S (String.length (String d ds +:+ String c rest)))%nat as ->.
  { unfold fuel. rewrite (str_length_app prefix). lia. }
  cbn [Unformat.loop]. rewrite decide_True.
  2:{ rewrite !str_length_app. simpl. lia. }
  rewrite str_app_assoc, !str_app_cons, str_app_assoc.
  change (EmptyString +:+ ?s) with s.
  rewrite !getitem_app_here. rewrite decide_False by done.
  rewrite getitem_app_r.
  replace (String.length (String d ds))
    with (String.length (String d ds) + 0)%nat at 1 by lia.
  rewrite <-(str_app_cons d ds), getitem_app_r.
  cbn [PyStr.getitem String.get].
  rewrite <-(str_app_assoc placeholder "}" (String c psuffix)).
  rewrite (inner_copies (placeholder +:+ "}") prefix "{" c psuffix prefix).
  - rewrite slice_from_app.
    replace (String.length (String d ds))
      with (String.length (String d ds) + 0)%nat by lia.
    rewrite slice_from_app. cbn [PyStr.slice_from].
    rewrite (str_app_assoc prefix), str_app_cons.
    by rewrite (str_app_assoc placeholder).
  - by apply not_eq_sym.
  - clear -Hc Hc2. induction placeholder as [|p ph IH]; simpl in *.
    + rewrite bool_decide_eq_false_2; [done|]. by apply not_eq_sym.
    + apply orb_false_iff in Hc as [-> Hc]. by apply IH.
  - rewrite !str_length_app. simpl. rewrite !str_length_app. simpl. lia.
Qed.

(** X2. For a pattern with the placeholder token followed by the
    character [c], and a host that agrees with the pattern up to the
    token, has the team where the token stands and [c] after it,
    [unformat] puts the token back in place of the team and keeps the
    rest of the host, whatever follows in the pattern. *)
Theorem unformat_discovered_host (prefix placeholder psuffix rest : string)
    (c : ascii) (team : Z) :
  c ≠ "{"%char → c ≠ "}"%char →
  PyStr.occurs c placeholder = false →
  Unformat.unformat
    (prefix +:+ PyStr.token placeholder +:+ String c psuffix)
    (prefix +:+ str team +:+ String c rest) team =
  Some (prefix +:+ PyStr.token placeholder +:+ String c rest,
        [String c EmptyString]).
Proof. apply unformat_puts_token_back. Qed.

Lemma unformat_discovered_host_witness :
  Unformat.unformat "10.{team}.1.0/24" "10.5.1.17" 5 =
  Some ("10.{team}.1.17", ["."]).
Proof.
  apply (unformat_discovered_host "10." "team" "1.0/24" "1.17" "." 5);
    [discriminate..|reflexivity].
Defined.

(** X3. The template that [unformat] recovers from a host of the
    reference team gives, under [format], the corresponding host of
    every team. *)
Theorem template_regenerates_hosts (prefix placeholder psuffix rest : string)
    (c : ascii) (reference_team : Z) :
  PyStr.brace_free prefix = true →
  PyStr.keyword placeholder = true →
  PyStr.brace_free (String c rest) = true →
  PyStr.occurs c placeholder = false →
  ∃ template printed,
    Unformat.unformat
      (prefix +:+ PyStr.token placeholder +:+ String c psuffix)
      (prefix +:+ str reference_team +:+ String c rest) reference_team =
    Some (template, printed) ∧
    ∀ team, PyStr.format template placeholder team =
            PyStr.Formatted (prefix +:+ str team +:+ String c rest).
Proof.
  intros Hp Hph Hs Hc. eexists _, _. split.
  - apply brace_free_cons in Hs as (? & ? & _).
    by apply unformat_puts_token_back.
  - intros team. by apply format_one_placeholder.
Qed.

Lemma template_regenerates_hosts_witness :
  ∃ template printed,
    Unformat.unformat "10.{team}.1.0/24" "10.5.1.17" 5 =
    Some (template, printed) ∧
    ∀ team, PyStr.format template "team" team =
            PyStr.Formatted ("10." +:+ str team +:+ ".1.17").
Proof.
  apply (template_regenerates_hosts "10." "team" "1.0/24" "1.17" "." 5);
    reflexivity.
Defined.

(** X4. When the host ends with the team, the character after the team
    is out of range: the exception is caught and reported, and what
    [unformat] returns is the text before the placeholder only. *)
Theorem unformat_team_last (prefix ptail : string) (team : Z) :
  Unformat.unformat (prefix +:+ String "{" ptail) (prefix +:+ str team) team =
  Some (prefix,
        ["Error unformatting string: string index out of range"]).
Proof.
  destruct (str_head team) as (d & ds & Hstr & Hd).
  unfold Unformat.unformat. rewrite Hstr.
  set (fuel := S (String.length (prefix +:+ String d ds))).
  pose proof (loop_common_prefix prefix EmptyString
    (String "{" ptail) (String d ds) (String d ds) fuel EmptyString) as Hloop.
  change (EmptyString +:+ ?s) with s in Hloop.
  simpl String.length in Hloop at 2.
  rewrite Hloop; clear Hloop.
  2:{ unfold fuel. rewrite str_length_app. lia. }
  assert (fuel - String.length prefix = S (String.length (String d ds)))%nat
    as ->.
  { unfold fuel. rewrite (str_length_app prefix). lia. }
  cbn [Unformat.loop]. rewrite decide_True.
  2:{ rewrite !str_length_app. simpl. lia. }
  rewrite !getitem_app_here. rewrite decide_False by done.
  replace (prefix +:+ String d ds) with ((prefix +:+ String d ds) +:+ EmptyString)
    at 1 by apply str_app_nil_r.
  rewrite <-str_length_app.
  replace (String.length (prefix +:+ String d ds))
    with (String.length (prefix +:+ String d ds) + 0)%nat by lia.
  rewrite getitem_app_r. done.
Qed.

(** ** Exceptions of the probe *)

Section check_ports_raise.
Import PyStr PortChecker.
Variables (net : network) (host : string) (timeout : Z).

Lemma check_ports_from_raises (k : nat) ports e :
  (check_ports_from net k host ports timeout).1 = Raise e ↔
  e = KeyboardInterrupt ∧
  ∃ (n : nat) port,
    ports !! n = Some port ∧
    net (k + n)%nat (strip host) port timeout = Fails KeyboardInterrupt ∧
    ∀ (j : nat) q, (j < n)%nat → ports !! j = Some q →
      net (k + j)%nat (strip host) q timeout ≠ ConnectEx 0 ∧
      net (k + j)%nat (strip host) q timeout ≠ Fails KeyboardInterrupt.
Proof.
  revert k. induction ports as [|port ports' IH]; intros k.
  { split; [done|]. by intros (_ & n & p & ? & _). }
  cbn [check_ports_from]. specialize (IH (S k)).
  (* what the rest of the list says, seen from the whole list *)
  assert (Hrest : net k (strip host) port timeout ≠ ConnectEx 0 →
                  net k (strip host) port timeout ≠ Fails KeyboardInterrupt →
    ((check_ports_from net (S k) host ports' timeout).1 = Raise e ↔
     e = KeyboardInterrupt ∧
     ∃ (n : nat) p,
       (port :: ports') !! n = Some p ∧
       net (k + n)%nat (strip host) p timeout = Fails KeyboardInterrupt ∧
       ∀ (j : nat) q, (j < n)%nat → (port :: ports') !! j = Some q →
         net (k + j)%nat (strip host) q timeout ≠ ConnectEx 0 ∧
         net (k + j)%nat (strip host) q timeout ≠ Fails KeyboardInterrupt)).
  { intros Hno Hni. rewrite IH. apply and_iff_compat_l. split.
    - intros (n & p & Hp & Hn & Hbefore). exists (S n), p.
      rewrite Nat.add_succ_r. split_and!; [done..|]. intros [|j] q Hj Hq.
      + simplify_eq/=. by rewrite Nat.add_0_r.
      + rewrite Nat.add_succ_r. apply Hbefore; [lia|done].
    - intros ([|n] & p & Hp & Hn & Hbefore).
      + simplify_eq/=. by rewrite Nat.add_0_r in Hn.
      + exists n, p. rewrite Nat.add_succ_r in Hn. split_and!; [done..|].
        intros j q Hj Hq. specialize (Hbefore (S j) q).
        rewrite Nat.add_succ_r in Hbefore. apply Hbefore; [lia|done]. }
  destruct (net k (strip host) port timeout) as [result|[msg|]] eqn:Hnet.
  - destruct (decide (result = 0)) as [->|Hne].
    + split; [done|]. intros (_ & [|n] & p & Hp & Hn & Hbefore).
      * simplify_eq/=. rewrite Nat.add_0_r in Hn. congruence.
      * destruct (Hbefore O port) as [Hno _]; [lia|done|].
        rewrite Nat.add_0_r in Hno. congruence.
    + rewrite <-Hrest by congruence.
      by destruct (check_ports_from net (S k) host ports' timeout).
  - rewrite <-Hrest by congruence.
    by destruct (check_ports_from net (S k) host ports' timeout).
  - cbn [fst]. split.
    + intros [= <-]. split; [done|]. exists O, port.
      rewrite Nat.add_0_r. split_and!; [done..|]. intros; lia.
    + by intros [-> _].
Qed.
End check_ports_raise.

(** X5. An exception leaves [check_ports] only as the KeyboardInterrupt
    it re-raises, and exactly when an attempt is interrupted before any
    port has accepted a connection: every other failure of an attempt
    is swallowed. *)
Theorem check_ports_raises_iff (net : PortChecker.network) (host : string)
    (ports : list Z) (timeout : Z) (e : exn) :
  (PortChecker.check_ports net host ports timeout).1 = Raise e ↔
  e = KeyboardInterrupt ∧
  ∃ (n : nat) port,
    ports !! n = Some port ∧
    net n (PyStr.strip host) port timeout
      = PortChecker.Fails KeyboardInterrupt ∧
    ∀ (j : nat) q, (j < n)%nat → ports !! j = Some q →
      net j (PyStr.strip host) q timeout ≠ PortChecker.ConnectEx 0 ∧
      net j (PyStr.strip host) q timeout
        ≠ PortChecker.Fails KeyboardInterrupt.
Proof. apply (check_ports_from_raises net host timeout 0). Qed.

(** Port 22 refuses, the attempt on port 80 is interrupted. *)
Lemma check_ports_raises_iff_witness :
  let net : PortChecker.network := λ n host port timeout,
    if decide (port = 80) then PortChecker.Fails KeyboardInterrupt
    else PortChecker.ConnectEx 111 in
  (PortChecker.check_ports net "10.1.1.5" [22; 80; 443] 3).1 =
  Raise KeyboardInterrupt.
Proof.
  intros net.
  apply (check_ports_raises_iff net "10.1.1.5" [22; 80; 443] 3).
  split; [reflexivity|]. exists 1%nat, 80. split_and!; [reflexivity..|].
  intros [|j] q Hj Hq; [|lia]. injection Hq as <-. by split.
Defined.

(** ** More on the worker *)

Section worker_more.
Import Worker.
Variable w : worker.

Lemma probed_app o1 o2 :
  Trace.probed (o1 ++ o2) = Trace.probed o1 ++ Trace.probed o2.
Proof. induction o1 as [|[] o1 IH]; simpl; by rewrite ?IH. Qed.

Lemma printed_app o1 o2 :
  Trace.printed (o1 ++ o2) = Trace.printed o1 ++ Trace.printed o2.
Proof. induction o1 as [|[] o1 IH]; simpl; by rewrite ?IH. Qed.

Lemma printed_print ls : Trace.printed (Print <$> ls) = ls.
Proof. induction ls; simpl; by f_equal. Qed.

Lemma probed_print ls : Trace.probed (Print <$> ls) = [].
Proof. by induction ls. Qed.

Lemma run_app inputs1 inputs2 st :
  run w (inputs1 ++ inputs2) st = run w inputs2 (run w inputs1 st).
Proof. unfold run. by rewrite foldl_app. Qed.

Lemma run_cons i inputs st : run w (i :: inputs) st = run w inputs (react w i st).
Proof. done. Qed.

(** The [for] loop over the teams left, every probe returning. *)
Lemma for_loop_reports (fmt : Z → string) rest answers st :
  at_pc st = AtFor rest → stop_event st = false →
  (∀ t, t ∈ rest →
     PyStr.format (host w) (placeholder w) t = PyStr.Formatted (fmt t)) →
  length answers = length rest →
  let calls := Trace.cycle_calls fmt rest answers in
  let st' := run w (Step ∘ Ret <$> answers) st in
  at_pc st' = AtFor [] ∧ stop_event st' = false ∧
  down_hosts st' = (Registry.reports calls (down_hosts st)).1 ∧
  Trace.printed (out st') =
    Trace.printed (out st) ++ (Registry.reports calls (down_hosts st)).2 ∧
  Trace.probed (out st') = Trace.probed (out st) ++ (fmt <$> rest).
Proof.
  revert answers st. induction rest as [|t rest IH];
    intros [|b answers] [p s d o] Hpc Hs Hfmt Hlen; try done;
    cbn [at_pc stop_event down_hosts out] in *; subst p s.
  { cbn. by rewrite !app_nil_r. }
  injection Hlen as Hlen.
  rewrite fmap_cons, run_cons. cbn [react compose].
  destruct (Registry.report t (fmt t) b d) as [d1 lines] eqn:Hrep.
  assert (step w (Ret b)
            {| at_pc := AtFor (t :: rest); stop_event := false;
               down_hosts := d; out := o |} =
          {| at_pc := AtFor rest; stop_event := false; down_hosts := d1;
             out := (o ++ [CheckPorts (fmt t) (ports w)])
                    ++ (Print <$> lines) |}) as ->.
  { unfold step. cbn [at_pc stop_event]. rewrite (Hfmt t) by set_solver.
    cbn [emit down_hosts out stop_event at_pc]. by rewrite Hrep. }
  destruct (IH answers
    {| at_pc := AtFor rest; stop_event := false; down_hosts := d1;
       out := (o ++ [CheckPorts (fmt t) (ports w)]) ++ (Print <$> lines) |})
    as (Hp & Hst & Hd & Hpr & Hpb);
    [done|done|intros t' Ht'; apply Hfmt; set_solver|done|].
  cbn [at_pc stop_event down_hosts out] in *.
  rewrite Hp, Hst, Hd, Hpr, Hpb.
  unfold Trace.cycle_calls. cbn [zip_with Registry.reports].
  cbn [Registry.call_team Registry.call_host Registry.call_reachable].
  rewrite Hrep.
  destruct (Registry.reports _ d1) as [d2 lines2]. cbn [fst snd].
  rewrite !printed_app, !probed_app, printed_print, probed_print.
  cbn [Trace.printed Trace.probed fmap list_fmap].
  rewrite !app_nil_r, <-!app_assoc. done.
Qed.
End worker_more.

(** X6. A cycle in which the stop event stays unset and every probe
    returns is the sequence of [report] calls for the teams in their
    order: the worker probes each team's host once, in the order of
    [self.teams], the registry and the alerts printed are those of the
    reports made one after the other, and the worker is back at the
    test of [while]. *)
Theorem full_cycle_is_report_sequence (w : Worker.worker) (fmt : Z → string)
    (answers : list bool) (st : Worker.state) (p0 p1 p2 : res bool) :
  Worker.at_pc st = Worker.AtWhile →
  Worker.stop_event st = false →
  (∀ t, t ∈ Worker.teams w →
     PyStr.format (Worker.host w) (Worker.placeholder w) t
       = PyStr.Formatted (fmt t)) →
  length answers = length (Worker.teams w) →
  let calls := Trace.cycle_calls fmt (Worker.teams w) answers in
  let st' := Worker.run w
    (Worker.Step p0 :: (Worker.Step ∘ Ret <$> answers) ++
     [Worker.Step p1; Worker.Step p2]) st in
  Worker.at_pc st' = Worker.AtWhile ∧
  Worker.down_hosts st' =
    (Registry.reports calls (Worker.down_hosts st)).1 ∧
  Trace.printed (Worker.out st') =
    Trace.printed (Worker.out st) ++
    (Registry.reports calls (Worker.down_hosts st)).2 ∧
  Trace.probed (Worker.out st') =
    Trace.probed (Worker.out st) ++ (fmt <$> Worker.teams w).
Proof.
  intros Hpc Hs Hfmt Hlen. destruct st as [p s d o].
  cbn [Worker.at_pc Worker.stop_event Worker.down_hosts Worker.out] in *.
  subst p s. cbv zeta. rewrite run_cons, run_app. cbn [Worker.react].
  assert (Worker.step w p0
            {| Worker.at_pc := Worker.AtWhile; Worker.stop_event := false;
               Worker.down_hosts := d; Worker.out := o |} =
          {| Worker.at_pc := Worker.AtFor (Worker.teams w);
             Worker.stop_event := false; Worker.down_hosts := d;
             Worker.out := o |}) as -> by done.
  destruct (for_loop_reports w fmt (Worker.teams w) answers
    {| Worker.at_pc := Worker.AtFor (Worker.teams w);
       Worker.stop_event := false; Worker.down_hosts := d;
       Worker.out := o |}) as (Hp & Hst & Hd & Hpr & Hpb); [done..|].
  cbn [Worker.down_hosts Worker.out] in Hd, Hpr, Hpb.
  destruct (Worker.run w (Worker.Step ∘ Ret <$> answers) _)
    as [p1' s1 d1 o1].
  cbn [Worker.at_pc Worker.stop_event Worker.down_hosts Worker.out] in *.
  subst p1' s1 d1. unfold Worker.run. cbn [foldl Worker.react].
  unfold Worker.step, Worker.emit, Worker.goto.
  cbn [Worker.at_pc Worker.stop_event Worker.down_hosts Worker.out].
  rewrite !printed_app, !probed_app, Hpr, Hpb. cbn.
  by rewrite !app_nil_r.
Qed.

Lemma full_cycle_is_report_sequence_witness :
  let w := {| Worker.host := "10.{team}.1.5"; Worker.ports := [22];
              Worker.teams := [1; 2; 3]; Worker.placeholder := "team" |} in
  let st' := Worker.run w
    (Worker.Step (Ret true) ::
     (Worker.Step ∘ Ret <$> [true; false; true]) ++
     [Worker.Step (Ret true); Worker.Step (Ret true)])
    (Worker.start false ∅) in
  Worker.at_pc st' = Worker.AtWhile ∧
  Worker.down_hosts st' = {[ (2, "10.2.1.5") ]} ∧
  Trace.printed (Worker.out st') =
    ["TEAM 2 - HOST 10.2.1.5 - POSSIBLE BOX RESET"] ∧
  Trace.probed (Worker.out st') = ["10.1.1.5"; "10.2.1.5"; "10.3.1.5"].
Proof.
  intros w st'.
  destruct (full_cycle_is_report_sequence w
    (λ t, "10." +:+ str t +:+ ".1.5") [true; false; true]
    (Worker.start false ∅) (Ret true) (Ret true) (Ret true))
    as (H1 & H2 & H3 & H4); [done|done| |done|].
  - intros t Ht. by apply (format_one_placeholder "team" t "10." ".1.5").
  - subst st'. split_and!; [exact H1|rewrite H2|rewrite H3|rewrite H4];
      by vm_compute.
Defined.

Section worker_invariants.
Import Worker.
Variable w : worker.

Lemma run_snoc_worker inputs i st :
  run w (inputs ++ [i]) st = react w i (run w inputs st).
Proof. unfold run. by rewrite foldl_snoc. Qed.

Lemma react_in_cycle i st : Trace.in_cycle w st → Trace.in_cycle w (react w i st).
Proof.
  destruct st as [p s d o]. unfold Trace.in_cycle. intros Hin.
  destruct i as [probe|]; [|done]. cbn [react]. unfold step.
  cbn [at_pc stop_event down_hosts out].
  destruct p as [|[|t rest0]| | |r|];
    try (destruct s; cbn; intros; by simplify_eq).
  specialize (Hin _ eq_refl). destruct s; [cbn; intros; by simplify_eq|].
  destruct (PyStr.format _ _ t) as [fh|[msg|]|];
    try (cbn; intros; by simplify_eq).
  destruct probe as [b|[msg|]]; try (cbn; intros; by simplify_eq).
  destruct (Registry.report _ _ _ _). cbn. intros rest [= <-]. set_solver.
Qed.

End worker_invariants.



Lemma format_go_not_interrupt placeholder team s field :
  PyStr.format_go placeholder team field s ≠
  PyStr.FormatError KeyboardInterrupt.
Proof.
  assert ((∀ field, PyStr.format_go placeholder team field s ≠
                    PyStr.FormatError KeyboardInterrupt) ∧
          (∀ c field, PyStr.format_go placeholder team field (String c s) ≠
                      PyStr.FormatError KeyboardInterrupt)) as [H _];
    [|by apply H].
  clear field. induction s as [|c s [IH1 IH2]].
  - split; [by intros [f|]|].
    intros c [f|]; cbn; repeat (case_decide || case_match); done.
  - split; [done|]. intros c0 field.
    pose proof (IH1 None) as H1. pose proof (IH2 c None) as H2.
    pose proof (IH2 c (Some EmptyString)) as H3.
    remember (String c s) as s1 eqn:Hs1.
    destruct field as [name|].
    + pose proof (IH2 c (Some (PyStr.snoc name c0))) as H4.
      rewrite <-Hs1 in H4. cbn [PyStr.format_go].
      destruct (PyStr.format_go placeholder team None s1)
        as [|[]|]; repeat (case_decide || case_match); done.
    + cbn [PyStr.format_go].
      destruct (PyStr.format_go placeholder team None s1) as [|[]|];
        try done; subst s1;
        destruct (PyStr.format_go placeholder team None s) as [|[]|];
        try done;
        repeat (case_decide || case_match); done.
Qed.

Section worker_ends.
Import Worker.
Variable w : worker.

Lemma react_returns inputs i st :
  (stop_event st = true → SetStop ∈ inputs) →
  (∀ r, at_pc st = Done r →
     (r = Ret () ∧ stop_event st = true) ∨
     (r = Raise KeyboardInterrupt ∧ Step (Raise KeyboardInterrupt) ∈ inputs)) →
  (stop_event (react w i st) = true → SetStop ∈ inputs ++ [i]) ∧
  (∀ r, at_pc (react w i st) = Done r →
     (r = Ret () ∧ stop_event (react w i st) = true) ∨
     (r = Raise KeyboardInterrupt ∧
      Step (Raise KeyboardInterrupt) ∈ inputs ++ [i])).
Proof.
  destruct st as [p s d o]. cbn [at_pc stop_event]. intros Hs Hr.
  destruct i as [probe|]; cbn [react].
  2:{ cbn. split; [set_solver|]. intros r Hp.
      destruct (Hr r Hp) as [[-> _]|[-> ?]]; [by left|right; set_solver]. }
  assert (∀ r, p = Done r →
            (r = Ret () ∧ s = true) ∨
            (r = Raise KeyboardInterrupt ∧
             Step (Raise KeyboardInterrupt) ∈ inputs ++ [Step probe]))
    as Hr'.
  { intros r Hp. destruct (Hr r Hp) as [?|[-> ?]]; [by left|right; set_solver]. }
  unfold step. cbn [at_pc stop_event].
  destruct p as [|[|t rest]| | |r0|]; cbn.
  - destruct s; cbn; (split; [set_solver|]); intros r [= <-] || done; by left.
  - split; [set_solver|done].
  - destruct s; cbn; [split; [set_solver|done]|].
    pose proof (format_go_not_interrupt (placeholder w) t (host w) None) as Hf.
    unfold PyStr.format.
    destruct (PyStr.format_go _ _ _ _) as [fh|[msg|]|]; cbn; try done.
    destruct probe as [b|[msg|]]; cbn.
    + destruct (Registry.report _ _ _ _). cbn. done.
    + done.
    + split; [done|]. intros r [= <-]. right. set_solver.
  - destruct s; cbn; (split; [set_solver|]); intros r [= <-] || done; by left.
  - destruct s; cbn; (split; [set_solver|]); intros r [= <-] || done; by left.
  - split; [set_solver|]. intros r [= <-]. by apply Hr'.
  - split; [set_solver|done].
Qed.
End worker_ends.

(** X8. A worker leaves [check_host_continuous] in two ways only: it
    returns after the stop event has been set, or a KeyboardInterrupt
    raised by a probe passes through it.  No answer of a probe, no
    Exception and no template ends it. *)
Theorem worker_returns_only_when_stopped (w : Worker.worker)
    (inputs : list Worker.input) (d : registry) (r : res unit) :
  Worker.at_pc (Worker.check_host_continuous w inputs d) = Worker.Done r →
  (r = Ret () ∧ Worker.SetStop ∈ inputs) ∨
  (r = Raise KeyboardInterrupt ∧
   Worker.Step (Raise KeyboardInterrupt) ∈ inputs).
Proof.
  unfold Worker.check_host_continuous.
  set (st := Worker.run w inputs (Worker.start false d)).
  assert ((Worker.stop_event st = true → Worker.SetStop ∈ inputs) ∧
          (∀ r, Worker.at_pc st = Worker.Done r →
             (r = Ret () ∧ Worker.stop_event st = true) ∨
             (r = Raise KeyboardInterrupt ∧
              Worker.Step (Raise KeyboardInterrupt) ∈ inputs))) as [Hs Hr].
  { unfold st. clear st r.
    induction inputs as [|i inputs [IH1 IH2]] using rev_ind; [done|].
    rewrite run_snoc_worker. by apply react_returns. }
  intros Hp. destruct (Hr r Hp) as [[-> ?]|?]; [left|right]; auto.
Qed.

Lemma worker_returns_only_when_stopped_witness :
  let w := {| Worker.host := "10.{team}.1.5"; Worker.ports := [22];
              Worker.teams := [1; 2]; Worker.placeholder := "team" |} in
  let inputs := [Worker.Step (Ret true); Worker.Step (Ret false);
                 Worker.SetStop; Worker.Step (Ret true);
                 Worker.Step (Ret true)] in
  (Ret () = Ret () ∧ Worker.SetStop ∈ inputs) ∨
  (Ret () = Raise KeyboardInterrupt ∧
   Worker.Step (Raise KeyboardInterrupt) ∈ inputs).
Proof.
  intros w inputs.
  apply (worker_returns_only_when_stopped w inputs ∅ (Ret ())).
  reflexivity.
Defined.

Section worker_stop.
Import Worker.
Variable w : worker.

Lemma run_stopped inputs st :
  stop_event st = true →
  stop_event (run w inputs st) = true ∧
  down_hosts (run w inputs st) = down_hosts st ∧
  Trace.probed (out (run w inputs st)) = Trace.probed (out st) ∧
  Trace.printed (out (run w inputs st)) = Trace.printed (out st) ∧
  match at_pc st with
  | Done r => at_pc (run w inputs st) = Done r
  | OutOfModel => at_pc (run w inputs st) = OutOfModel
  | p => (Trace.steps_to_return p ≤ steps inputs)%nat →
         at_pc (run w inputs st) = Done (Ret ())
  end.
Proof.
  revert st. induction inputs as [|i inputs IH]; intros [p s d o];
    cbn [stop_event at_pc down_hosts out]; intros ->.
  { cbn. split_and!; try done. destruct p; cbn; try done; lia. }
  rewrite run_cons. destruct i as [probe|]; cbn [react steps].
  2:{ apply (IH {| at_pc := p; stop_event := true; down_hosts := d;
                   out := o |} eq_refl). }
  unfold step. cbn [at_pc stop_event].
  destruct p as [|rest| | |r|].
  - destruct (IH (goto (Done (Ret ()))
                   {| at_pc := AtWhile; stop_event := true;
                      down_hosts := d; out := o |}) eq_refl)
      as (? & ? & ? & ? & ?). done.
  - destruct (IH {| at_pc := AtWait01; stop_event := true; down_hosts := d;
                    out := o |} eq_refl) as (H1 & H2 & H3 & H4 & H5).
    cbn [at_pc stop_event down_hosts out Trace.steps_to_return] in *.
    destruct rest as [|t rest0]; cbn [goto at_pc stop_event down_hosts out];
      (split_and!; [done..|]); intros; apply H5; lia.
  - destruct (IH {| at_pc := Done (Ret ()); stop_event := true;
                    down_hosts := d; out := o ++ [Wait 100] |} eq_refl)
      as (H1 & H2 & H3 & H4 & H5).
    cbn [at_pc stop_event down_hosts out] in *.
    rewrite probed_app, printed_app, !app_nil_r in *. done.
  - destruct (IH {| at_pc := Done (Ret ()); stop_event := true;
                    down_hosts := d; out := o ++ [Wait 1000] |} eq_refl)
      as (H1 & H2 & H3 & H4 & H5).
    cbn [at_pc stop_event down_hosts out] in *.
    rewrite probed_app, printed_app, !app_nil_r in *. done.
  - apply (IH {| at_pc := Done r; stop_event := true; down_hosts := d;
                 out := o |} eq_refl).
  - apply (IH {| at_pc := OutOfModel; stop_event := true; down_hosts := d;
                 out := o |} eq_refl).
Qed.
End worker_stop.

(** X9. Once the stop event is set, wherever the worker stands in its
    code, it makes no further probe, prints nothing more and leaves the
    registry as it is, and with at most two more steps of its own it
    has returned. *)
Theorem stop_is_final (w : Worker.worker) (st : Worker.state)
    (inputs : list Worker.input) :
  Worker.stop_event st = true →
  (∀ r, Worker.at_pc st ≠ Worker.Done r) →
  Worker.at_pc st ≠ Worker.OutOfModel →
  let st' := Worker.run w inputs st in
  Worker.down_hosts st' = Worker.down_hosts st ∧
  Trace.probed (Worker.out st') = Trace.probed (Worker.out st) ∧
  Trace.printed (Worker.out st') = Trace.printed (Worker.out st) ∧
  ((2 ≤ Worker.steps inputs)%nat →
   Worker.at_pc st' = Worker.Done (Ret ())).
Proof.
  intros Hs Hd Ho st'.
  destruct (run_stopped w inputs st Hs) as (_ & H2 & H3 & H4 & H5).
  split_and!; try done. intros Hn.
  destruct (Worker.at_pc st) eqn:Hp; try done;
    try (apply H5; cbn; lia). by destruct (Hd r).
Qed.

Lemma stop_is_final_witness :
  let w := {| Worker.host := "10.{team}.1.5"; Worker.ports := [22];
              Worker.teams := [1; 2]; Worker.placeholder := "team" |} in
  let st := {| Worker.at_pc := Worker.AtWait1; Worker.stop_event := true;
               Worker.down_hosts := {[ (1, "10.1.1.5") ]};
               Worker.out := [CheckPorts "10.2.1.5" [22];
                              Print "Error checking host 10.{team}.1.5: boom"]
            |} in
  let st' := Worker.run w [Worker.Step (Ret false); Worker.Step (Ret false)]
               st in
  Worker.down_hosts st' = {[ (1, "10.1.1.5") ]} ∧
  Trace.probed (Worker.out st') = ["10.2.1.5"] ∧
  Trace.printed (Worker.out st') =
    ["Error checking host 10.{team}.1.5: boom"] ∧
  Worker.at_pc st' = Worker.Done (Ret ()).
Proof.
  intros w st st'.
  destruct (stop_is_final w st
              [Worker.Step (Ret false); Worker.Step (Ret false)])
    as (H1 & H2 & H3 & H4); [done..|].
  split_and!; [exact H1|exact H2|exact H3|]. apply H4. cbn. lia.
Defined.

Section worker_template.
Import Worker.
Variable w : worker.
Hypothesis bad : ∀ t, t ∈ teams w →
  ∃ msg, PyStr.format (host w) (placeholder w) t
           = PyStr.FormatError (Exception msg).

Lemma react_bad_template i st :
  Trace.in_cycle w st →
  down_hosts (react w i st) = down_hosts st ∧
  Trace.probed (out (react w i st)) = Trace.probed (out st) ∧
  (∀ line, line ∈ Trace.printed (out (react w i st)) →
     line ∈ Trace.printed (out st) ∨ ∃ msg, line = error_line w msg).
Proof.
  destruct st as [p s d o]. unfold Trace.in_cycle. intros Hin.
  destruct i as [probe|]; [|cbn; auto]. cbn [react]. unfold step.
  cbn [at_pc stop_event down_hosts out].
  destruct p as [|[|t rest0]| | |r|];
    try (destruct s; cbn; rewrite ?probed_app, ?printed_app, ?app_nil_r;
         by auto).
  specialize (Hin _ eq_refl). destruct s; [cbn; by auto|].
  destruct (bad t) as [msg ->]; [set_solver|].
  cbn. rewrite probed_app, printed_app, app_nil_r. split_and!; [done..|].
  intros line [?|Hl%list_elem_of_singleton]%elem_of_app; eauto.
Qed.
End worker_template.

(** X10. A worker whose template cannot be formatted for any of its teams
    (a field that is not the placeholder, a lone brace) never calls
    [check_ports] and never changes the registry: whatever happens
    around it, all it prints are lines "Error checking host ...". *)
Theorem bad_template_never_probes (w : Worker.worker)
    (inputs : list Worker.input) (d : registry) :
  (∀ t, t ∈ Worker.teams w →
     ∃ msg, PyStr.format (Worker.host w) (Worker.placeholder w) t
              = PyStr.FormatError (Exception msg)) →
  let st := Worker.check_host_continuous w inputs d in
  Worker.down_hosts st = d ∧
  Trace.probed (Worker.out st) = [] ∧
  ∀ line, line ∈ Trace.printed (Worker.out st) →
    ∃ msg, line = Worker.error_line w msg.
Proof.
  intros Hbad. unfold Worker.check_host_continuous. cbv zeta.
  assert (Trace.in_cycle w (Worker.run w inputs (Worker.start false d)) ∧
          Worker.down_hosts (Worker.run w inputs (Worker.start false d)) = d ∧
          Trace.probed
            (Worker.out (Worker.run w inputs (Worker.start false d))) = [] ∧
          ∀ line,
            line ∈ Trace.printed
              (Worker.out (Worker.run w inputs (Worker.start false d))) →
            ∃ msg, line = Worker.error_line w msg) as (_ & ? & ? & ?);
    [|done].
  induction inputs as [|i inputs (IH1 & IH2 & IH3 & IH4)] using rev_ind.
  - split_and!; try done. intros line []%elem_of_nil.
  - rewrite run_snoc_worker.
    destruct (react_bad_template w Hbad i _ IH1) as (H1 & H2 & H3).
    split_and!.
    + by apply react_in_cycle.
    + by rewrite H1.
    + by rewrite H2.
    + intros line [?|?]%H3; auto.
Qed.

Lemma bad_template_never_probes_witness :
  let w := {| Worker.host := "10.{t}.1.5"; Worker.ports := [22];
              Worker.teams := [1; 2]; Worker.placeholder := "team" |} in
  let st := Worker.check_host_continuous w
              (Worker.Step <$> [Ret true; Ret true; Ret true; Ret true])
              {[ (1, "10.1.1.5") ]} in
  Worker.down_hosts st = {[ (1, "10.1.1.5") ]} ∧
  Trace.probed (Worker.out st) = [] ∧
  ∀ line, line ∈ Trace.printed (Worker.out st) →
    ∃ msg, line = Worker.error_line w msg.
Proof.
  intros w st.
  apply (bad_template_never_probes w
           (Worker.Step <$> [Ret true; Ret true; Ret true; Ret true])
           {[ (1, "10.1.1.5") ]}).
  intros t _. by exists "'t'".
Defined.

Section executor_order.
Import Executor.

Lemma submit_in_order t e tasks :
  running e = take (Z.to_nat (max_workers e)) tasks →
  waiting e = drop (Z.to_nat (max_workers e)) tasks →
  running (submit t e) = take (Z.to_nat (max_workers e)) (tasks ++ [t]) ∧
  waiting (submit t e) = drop (Z.to_nat (max_workers e)) (tasks ++ [t]).
Proof.
  intros Hr Hw. unfold submit. rewrite Hr, Hw, length_take.
  case_decide as Hlt; cbn [running waiting].
  - assert (length tasks < Z.to_nat (max_workers e))%nat as Hlen by lia.
    rewrite !take_ge, !drop_ge by (rewrite ?length_app; simpl; lia). done.
  - assert (Z.to_nat (max_workers e) ≤ length tasks)%nat as Hlen by lia.
    by rewrite take_app_le, drop_app_le.
Qed.

Lemma submit_pairs_in_order pairs e tasks :
  running e = take (Z.to_nat (max_workers e)) tasks →
  waiting e = drop (Z.to_nat (max_workers e)) tasks →
  let e' := foldl (λ e pair, submit (CheckHost pair) e) e pairs in
  max_workers e' = max_workers e ∧
  running e' =
    take (Z.to_nat (max_workers e)) (tasks ++ (CheckHost <$> pairs)) ∧
  waiting e' =
    drop (Z.to_nat (max_workers e)) (tasks ++ (CheckHost <$> pairs)).
Proof.
  revert e tasks. induction pairs as [|pair pairs IH]; intros e tasks Hr Hw.
  - cbn. by rewrite app_nil_r.
  - cbn [foldl fmap list_fmap].
    destruct (submit_in_order (CheckHost pair) e tasks Hr Hw) as [Hr' Hw'].
    rewrite <-(submit_max_workers (CheckHost pair) e) in Hr', Hw'.
    destruct (IH _ _ Hr' Hw') as (H1 & H2 & H3).
    rewrite submit_max_workers in H1, H2, H3.
    by rewrite <-app_assoc in H2, H3.
Qed.
End executor_order.

(** X11. With a configured [max_workers] that is not negative, the pool
    gives its [max_workers + 1] threads to the submitted units in
    submission order, the workers in inventory order and the reporter
    last, and queues the rest.  So the reporter gets a thread exactly
    when the inventory has no more than [max_workers] entries. *)
Theorem launch_fills_pool_in_order (configured : option Z)
    (host_ports_pairs : list (string * list Z)) :
  0 ≤ Executor.config_max_workers configured →
  let tasks :=
    (Executor.CheckHost <$> host_ports_pairs) ++ [Executor.Reporter] in
  let n := Z.to_nat (Executor.config_max_workers configured + 1) in
  ∃ e,
    Executor.launch configured host_ports_pairs = Ret e ∧
    Executor.running e = take n tasks ∧
    Executor.waiting e = drop n tasks ∧
    (Executor.Reporter ∈ Executor.running e ↔
     Z.of_nat (length host_ports_pairs) ≤
       Executor.config_max_workers configured).
Proof.
  intros Hmw tasks n. unfold Executor.launch, Executor.new.
  rewrite decide_False by lia. eexists. split; [done|].
  set (e0 := {| Executor.max_workers := _ |}).
  destruct (submit_pairs_in_order host_ports_pairs e0 []) as (Hm & Hr & Hw).
  { by rewrite take_nil. }
  { by rewrite drop_nil. }
  cbn zeta in Hm, Hr, Hw. rewrite <-Hm in Hr, Hw.
  destruct (submit_in_order Executor.Reporter _ _ Hr Hw) as [Hr' Hw'].
  rewrite Hm in Hr', Hw'. cbn [app] in Hr', Hw'.
  change (Z.to_nat (Executor.max_workers e0)) with n in Hr', Hw'.
  fold tasks in Hr', Hw'.
  split_and!; [done..|]. rewrite Hr'. unfold tasks. split.
  - intros Hin. destruct (decide (Z.of_nat (length host_ports_pairs)
                                  ≤ Executor.config_max_workers configured))
      as [|Hgt]; [done|].
    rewrite take_app_le in Hin by (rewrite length_fmap; lia).
    apply elem_of_take in Hin as (i & Hi & _).
    rewrite list_lookup_fmap in Hi.
    by destruct (host_ports_pairs !! i).
  - intros Hle. rewrite take_ge by (rewrite length_app, length_fmap; simpl; lia).
    set_solver.
Qed.

Lemma launch_fills_pool_in_order_witness :
  ∃ e,
    Executor.launch (Some 1)
      [("10.{team}.1.5", [22]); ("10.{team}.1.6", [80])] = Ret e ∧
    Executor.running e =
      [Executor.CheckHost ("10.{team}.1.5", [22]);
       Executor.CheckHost ("10.{team}.1.6", [80])] ∧
    Executor.waiting e = [Executor.Reporter] ∧
    (Executor.Reporter ∈ Executor.running e ↔ 2 ≤ 1).
Proof.
  apply (launch_fills_pool_in_order (Some 1)
           [("10.{team}.1.5", [22]); ("10.{team}.1.6", [80])]).
  done.
Defined.

Section supervisor_stop.
Import Supervisor.

Lemma thread_errors_result fs :
  (thread_errors fs).2 = Ret () ∨
  (thread_errors fs).2 = Raise KeyboardInterrupt.
Proof.
  induction fs as [|[|[[]|[msg|]]] fs IH]; simpl; auto.
  destruct (thread_errors fs); simpl in *; auto.
Qed.

Lemma thread_errors_interrupt fs :
  Finished (Raise KeyboardInterrupt) ∈ fs →
  (thread_errors fs).2 = Raise KeyboardInterrupt.
Proof.
  induction fs as [|f fs IH]; intros Hin; [by apply elem_of_nil in Hin|].
  apply elem_of_cons in Hin as [<-|Hin]; [done|]. specialize (IH Hin).
  destruct f as [|[[]|[msg|]]]; simpl; try done.
  destruct (thread_errors fs); simpl in *; done.
Qed.

Lemma poll_once_result p :
  ((poll_once p).2 = Ret () ∧ uninterrupted p) ∨
  ((poll_once p).2 = Raise KeyboardInterrupt ∧ ¬ uninterrupted p).
Proof.
  unfold poll_once, uninterrupted.
  set (finished := filter _ _).
  assert (Finished (Raise KeyboardInterrupt) ∈ futures p →
          Finished (Raise KeyboardInterrupt) ∈ finished) as Hin.
  { intros Hin. unfold finished. by apply list_elem_of_filter. }
  assert (Finished (Raise KeyboardInterrupt) ∈ finished →
          Finished (Raise KeyboardInterrupt) ∈ futures p) as Hin'.
  { unfold finished. by intros [_ ?]%list_elem_of_filter. }
  case_decide as Hne.
  - pose proof (thread_errors_interrupt finished) as Hki.
    pose proof (thread_errors_uninterrupted finished) as Hun.
    destruct (thread_errors_result finished) as [Hr|Hr];
      destruct (thread_errors finished) as [o r]; simpl in *; subst r.
    + assert (Finished (Raise KeyboardInterrupt) ∉ futures p) as Hnot.
      { intros Hf. by specialize (Hki (Hin Hf)). }
      destruct (interrupt p); simpl; [right|left]; split; try done.
      by intros [? _].
    + right. split; [done|]. intros [_ Hf].
      destruct Hun as [? _]; [|done]. intros Hx. by apply Hf, Hin'.
  - assert (finished = []) as Hnil.
    { destruct finished; [done|]. by destruct Hne. }
    destruct (interrupt p); simpl; [right|left]; split; try done.
    + by intros [? _].
    + split; [done|]. intros Hf%Hin. rewrite Hnil in Hf.
      by apply elem_of_nil in Hf.
Qed.

Lemma await_all_result (i : nat) js :
  ((await_all i js).2 = Ret () ∧
   Joined (Raise KeyboardInterrupt) ∉ js ∧
   awaited (await_all i js).1 = seq i (length js)) ∨
  ((await_all i js).2 = Raise KeyboardInterrupt ∧
   ∃ js1 js2, js = js1 ++ Joined (Raise KeyboardInterrupt) :: js2 ∧
              Joined (Raise KeyboardInterrupt) ∉ js1 ∧
              awaited (await_all i js).1 = seq i (S (length js1))).
Proof.
  revert i. induction js as [|j js IH]; intros i.
  { left. split_and!; try done. apply not_elem_of_nil. }
  assert (j ≠ Joined (Raise KeyboardInterrupt) →
    ((let '(o, r) := await_all (S i) js in r) = Ret () ∧
     Joined (Raise KeyboardInterrupt) ∉ (j :: js) ∧
     i :: awaited (await_all (S i) js).1 = seq i (length (j :: js))) ∨
    ((let '(o, r) := await_all (S i) js in r) = Raise KeyboardInterrupt ∧
     ∃ js1 js2, j :: js = js1 ++ Joined (Raise KeyboardInterrupt) :: js2 ∧
                Joined (Raise KeyboardInterrupt) ∉ js1 ∧
                i :: awaited (await_all (S i) js).1 = seq i (S (length js1))))
    as Hstep.
  { intros Hj. destruct (IH (S i)) as [(Hr & Hn & Ha)|(Hr & js1 & js2 & -> & Hn & Ha)].
    - left. destruct (await_all (S i) js) as [o r]. simpl in *.
      split_and!; [done| |by rewrite Ha].
      by apply not_elem_of_cons.
    - right. destruct (await_all (S i) _) as [o r]. simpl in *.
      split; [done|]. exists (j :: js1), js2. split_and!; [done| |].
      + by apply not_elem_of_cons.
      + by rewrite Ha. }
  destruct j as [[[]|[msg|]]|]; cbn [await_all].
  - destruct Hstep as [H|H]; [done| |];
      destruct (await_all (S i) js) as [o r]; [left|right]; exact H.
  - destruct Hstep as [H|H]; [done| |];
      destruct (await_all (S i) js) as [o r]; [left|right]; exact H.
  - right. split; [done|]. exists [], js. split_and!; try done.
    apply not_elem_of_nil.
  - destruct Hstep as [H|H]; [done| |];
      destruct (await_all (S i) js) as [o r]; [left|right]; exact H.
Qed.

Lemma interrupted_result sh st :
  awaited (out st) = [] →
  stop_event (interrupted sh st) = true ∧
  last (out (interrupted sh st)) = Some ExecutorShutdown ∧
  at_phase (interrupted sh st) = Stopped (await_all 0 (joins sh)).2 ∧
  awaited (out (interrupted sh st)) = awaited (await_all 0 (joins sh)).1.
Proof.
  intros Ha. unfold interrupted, _shutdown_threads.
  destruct (await_all 0 (joins sh)) as [o [[]|e]]; cbn [fst snd];
    cbn [stop_event out at_phase];
    rewrite ?app_assoc, last_snoc;
    rewrite !awaited_app, Ha, awaited_print; cbn;
    by rewrite ?app_nil_r.
Qed.
End supervisor_stop.

Section supervisor_loop.
Import Supervisor.

Lemma monitor_result polls sh st :
  at_phase st = Running → awaited (out st) = [] →
  (at_phase (monitor polls sh st) = Running ↔ Forall uninterrupted polls) ∧
  (∀ r, at_phase (monitor polls sh st) = Stopped r →
     stop_event (monitor polls sh st) = true ∧
     last (out (monitor polls sh st)) = Some ExecutorShutdown ∧
     r = (await_all 0 (joins sh)).2 ∧
     awaited (out (monitor polls sh st)) =
       awaited (await_all 0 (joins sh)).1).
Proof.
  revert st. induction polls as [|p polls IH]; intros st Hrun Ha.
  { cbn. split; [done|]. intros r. by rewrite Hrun. }
  cbn [monitor]. pose proof (poll_once_no_await p) as Hna.
  destruct (poll_once_result p) as [[Hr Hp]|[Hr Hp]];
    destruct (poll_once p) as [o r0]; cbn [fst snd] in *; subst r0.
  - destruct (IH {| at_phase := at_phase st; stop_event := stop_event st;
                    out := out st ++ o |}) as [IH1 IH2]; [done| |].
    { cbn. by rewrite awaited_app, Ha, Hna. }
    split; [|done]. rewrite IH1, Forall_cons. naive_solver.
  - destruct (interrupted_result sh
                {| at_phase := at_phase st; stop_event := stop_event st;
                   out := out st ++ o |}) as (H1 & H2 & H3 & H4).
    { cbn. by rewrite awaited_app, Ha, Hna. }
    split.
    + rewrite H3, Forall_cons. naive_solver.
    + intros r Hst. rewrite H3 in Hst. injection Hst as <-. done.
Qed.
End supervisor_loop.

(** X12. The supervisor stays in its polling loop exactly as long as no
    KeyboardInterrupt arrives, from the operator or re-raised by the
    result of a finished unit.  When it leaves the loop the stop event
    is set and the pool is shut down as the last action, also when the
    shutdown itself is interrupted: the units are awaited in submission
    order, all of them when no wait is interrupted, and up to the
    first interrupted wait otherwise, and then [reset_check] raises. *)
Theorem reset_check_leaves_loop (polls : list Supervisor.poll)
    (sh : Supervisor.shutdown) :
  let st := Supervisor.reset_check polls sh in
  (Supervisor.at_phase st = Supervisor.Running ↔
   Forall Supervisor.uninterrupted polls) ∧
  (∀ r, Supervisor.at_phase st = Supervisor.Stopped r →
     Supervisor.stop_event st = true ∧
     last (Supervisor.out st) = Some ExecutorShutdown ∧
     ((r = Ret () ∧
       Supervisor.Joined (Raise KeyboardInterrupt) ∉ Supervisor.joins sh ∧
       Supervisor.awaited (Supervisor.out st) =
         seq 0 (length (Supervisor.joins sh))) ∨
      (r = Raise KeyboardInterrupt ∧
       ∃ js1 js2,
         Supervisor.joins sh =
           js1 ++ Supervisor.Joined (Raise KeyboardInterrupt) :: js2 ∧
         Supervisor.Joined (Raise KeyboardInterrupt) ∉ js1 ∧
         Supervisor.awaited (Supervisor.out st) = seq 0 (S (length js1))))).
Proof.
  intros st.
  destruct (monitor_result polls sh Supervisor.started eq_refl eq_refl)
    as [H1 H2].
  split; [exact H1|]. intros r Hr.
  destruct (H2 r Hr) as (Hs & Hl & -> & Ha). split_and!; [done..|].
  unfold st, Supervisor.reset_check. rewrite Ha.
  destruct (await_all_result 0 (Supervisor.joins sh))
    as [(Hr' & Hn & Ha')|(Hr' & js1 & js2 & Hj & Hn & Ha')]; rewrite Hr'.
  - left. done.
  - right. split; [done|]. by exists js1, js2.
Qed.

(** The operator's interrupt in the second pass; at shutdown the wait
    for the second unit is interrupted, the third is not awaited. *)
Lemma reset_check_leaves_loop_witness :
  let quiet := {| Supervisor.futures := [Supervisor.Pending];
                  Supervisor.down := ∅; Supervisor.interrupt := false |} in
  let last_poll := {| Supervisor.futures := [Supervisor.Pending];
                      Supervisor.down := ∅;
                      Supervisor.interrupt := true |} in
  let sh := {| Supervisor.final_down := ∅;
               Supervisor.joins :=
                 [Supervisor.Joined (Ret ());
                  Supervisor.Joined (Raise KeyboardInterrupt);
                  Supervisor.TimedOut] |} in
  let st := Supervisor.reset_check [quiet; last_poll] sh in
  Supervisor.stop_event st = true ∧
  last (Supervisor.out st) = Some ExecutorShutdown ∧
  Supervisor.awaited (Supervisor.out st) = [0; 1]%nat.
Proof.
  intros quiet last_poll sh st.
  destruct (proj2 (reset_check_leaves_loop [quiet; last_poll] sh)
              (Raise KeyboardInterrupt) eq_refl)
    as (H1 & H2 & [(Hr & _)|(_ & js1 & js2 & Hj & Hn & Ha)]);
    [discriminate|].
  split_and!; [exact H1|exact H2|].
  destruct js1 as [|a [|b js1]].
  - discriminate.
  - exact Ha.
  - injection Hj as _ <- _. destruct Hn. set_solver.
Defined.

Section scan_results.
Import Scan.

Lemma split_comma_go_length cur s : (0 < length (split_comma_go cur s))%nat.
Proof.
  revert cur. induction s as [|c s IH]; intros cur; simpl; [lia|].
  case_decide; simpl; [lia|apply IH].
Qed.

(** What [parse_ports] keeps: [P] of every port list it stores and the
    hosts it had. *)
Lemma parse_ports_keeps (P : list Z → Prop) lines results :
  (∀ found, found ≠ [] → P (merge_sort Z.le found)) →
  (∀ host found, results !! host = Some found → P found) →
  (∀ host found, parse_ports lines results !! host = Some found → P found) ∧
  dom results ⊆ dom (parse_ports lines results).
Proof.
  intros HP. revert results.
  induction lines as [|line lines IH]; intros results Hres; [done|].
  cbn [parse_ports]. cbv zeta.
  set (results' := if has_arrow _ then _ else _).
  assert ((∀ host found, results' !! host = Some found → P found) ∧
          dom results ⊆ dom results') as [H1 H2].
  { unfold results'.
    repeat (case_match || case_decide); try done.
    split; [|set_solver].
    intros host found.
    destruct (decide (host = PyStr.strip s)) as [->|Hne].
    - rewrite lookup_insert_eq. intros [= <-]. apply HP.
      intros ->.
      match goal with
      | H : mapM int (split_comma ?x) = Some [] |- _ =>
          apply mapM_Some_1, Forall2_length in H;
          pose proof (split_comma_go_length EmptyString x)
      end.
      unfold split_comma in *. simpl in *. lia.
    - rewrite lookup_insert_ne by done. apply Hres. }
  destruct (IH results' H1) as [H3 H4]. split; [done|set_solver].
Qed.

Lemma scan_hosts_from_keeps (P : list Z → Prop) run rustscan_path
    (k : nat) hosts ports results :
  (∀ found, found ≠ [] → P (merge_sort Z.le found)) →
  (∀ host found, results !! host = Some found → P found) →
  (∀ host found,
     (scan_hosts_from run rustscan_path k hosts ports results).1 !! host
       = Some found → P found) ∧
  dom results ⊆
    dom (scan_hosts_from run rustscan_path k hosts ports results).1.
Proof.
  intros HP. revert k results.
  induction hosts as [|host hosts IH]; intros k results Hres; [done|].
  cbn [scan_hosts_from].
  set (step := match run k _ with Completed _ _ _ => _ | _ => _ end).
  assert ((∀ host found, step.1 !! host = Some found → P found) ∧
          dom results ⊆ dom step.1) as [H1 H2].
  { unfold step. destruct (run k _) as [returncode stdout stderr| |msg];
      try done.
    case_decide; [|done]. by apply parse_ports_keeps. }
  destruct step as [results1 printed1]. cbn [fst] in *.
  destruct (IH (S k) results1 H1) as [H3 H4].
  destruct (scan_hosts_from run rustscan_path (S k) hosts ports results1).
  cbn [fst] in *. split; [done|set_solver].
Qed.

Lemma scan_hosts_from_app run rustscan_path (k : nat) hs1 hs2 ports results :
  (scan_hosts_from run rustscan_path k (hs1 ++ hs2) ports results).1 =
  (scan_hosts_from run rustscan_path (k + length hs1) hs2 ports
     (scan_hosts_from run rustscan_path k hs1 ports results).1).1.
Proof.
  revert k results. induction hs1 as [|h hs1 IH]; intros k results.
  { cbn. by replace (k + 0)%nat with k by lia. }
  cbn [app scan_hosts_from length].
  set (step := match run k _ with Completed _ _ _ => _ | _ => _ end).
  destruct step as [results1 printed1].
  specialize (IH (S k) results1).
  replace (k + S (length hs1))%nat with (S k + length hs1)%nat by lia.
  destruct (scan_hosts_from run rustscan_path (S k) (hs1 ++ hs2) ports
              results1).
  destruct (scan_hosts_from run rustscan_path (S k) hs1 ports results1).
  done.
Qed.
End scan_results.

(** X13. Whatever the external scans print, every host in the mapping
    [scan_hosts] returns has a port list that is not empty and is in
    ascending order. *)
Theorem scan_hosts_port_lists (m : Scan.machine) (run : Scan.subprocess)
    (hosts : list string) (ports : list Z)
    (results : gmap string (list Z)) (host : string) (found : list Z) :
  (Scan.scan_hosts m run hosts ports).1 = Ret results →
  results !! host = Some found →
  Sorted Z.le found ∧ found ≠ [].
Proof.
  unfold Scan.scan_hosts.
  destruct (Scan.get_rustscan_binary m) as [rustscan_path|e]; [|done].
  pose proof (scan_hosts_from_keeps
                (λ found, Sorted Z.le found ∧ found ≠ [])
                run rustscan_path 0 hosts ports ∅) as [H _].
  - intros l Hl. split; [apply Sorted_merge_sort, _|].
    intros Hnil. apply Hl.
    apply Permutation_nil. rewrite <-Hnil. by rewrite merge_sort_Permutation.
  - intros h l. by rewrite lookup_empty.
  - destruct (Scan.scan_hosts_from run rustscan_path 0 hosts ports ∅).
    cbn [fst] in *. intros [= <-]. apply H.
Qed.

Lemma scan_hosts_port_lists_witness :
  let m := {| Scan.system := "Linux"; Scan.binary_exists := true |} in
  let run : Scan.subprocess := λ k cmd,
    Scan.Completed 0 "10.5.1.17 -> [443,22,80]" EmptyString in
  Sorted Z.le [22; 80; 443] ∧ [22; 80; 443] ≠ ([] : list Z).
Proof.
  intros m run.
  apply (scan_hosts_port_lists m run ["10.5.1.17"] [22; 80; 443]
           {[ "10.5.1.17" := [22; 80; 443] ]} "10.5.1.17").
  - vm_compute. reflexivity.
  - vm_compute. reflexivity.
Defined.

(** X14. Scanning further hosts never loses a host found before: the
    hosts in the mapping after [hosts1] are in the mapping after
    [hosts1 ++ hosts2], however the runs for [hosts2] end. *)
Theorem scan_hosts_keeps_found (m : Scan.machine) (run : Scan.subprocess)
    (hosts1 hosts2 : list string) (ports : list Z)
    (results1 results2 : gmap string (list Z)) :
  (Scan.scan_hosts m run hosts1 ports).1 = Ret results1 →
  (Scan.scan_hosts m run (hosts1 ++ hosts2) ports).1 = Ret results2 →
  dom results1 ⊆ dom results2.
Proof.
  unfold Scan.scan_hosts.
  destruct (Scan.get_rustscan_binary m) as [rustscan_path|e]; [|done].
  pose proof (scan_hosts_from_app run rustscan_path 0 hosts1 hosts2 ports ∅)
    as Happ.
  destruct (Scan.scan_hosts_from run rustscan_path 0 (hosts1 ++ hosts2)
              ports ∅) as [r2 p2].
  destruct (Scan.scan_hosts_from run rustscan_path 0 hosts1 ports ∅)
    as [r1 p1].
  cbn [fst] in *. intros [= <-] [= <-]. rewrite Happ.
  by apply (scan_hosts_from_keeps (λ _, True)).
Qed.

Lemma scan_hosts_keeps_found_witness :
  let m := {| Scan.system := "Linux"; Scan.binary_exists := true |} in
  let run : Scan.subprocess := λ k cmd,
    match k with
    | O => Scan.Completed 0 "10.5.1.17 -> [443,22,80]" EmptyString
    | _ => Scan.TimeoutExpired
    end in
  dom ({[ "10.5.1.17" := [22; 80; 443] ]} : gmap string (list Z)) ⊆
  dom ({[ "10.5.1.17" := [22; 80; 443] ]} : gmap string (list Z)).
Proof.
  intros m run.
  apply (scan_hosts_keeps_found m run ["10.5.1.17"] ["10.5.1.18"]
           [22; 80; 443]).
  - vm_compute. reflexivity.
  - vm_compute. reflexivity.
Defined.

Section lock_facts.
Import Locking.
Implicit Types (s : sys) (a : agent) (d : registry) (i j : nat).

Lemma invariant_reachable ops d0 schedule :
  invariant (λ _, True) (run schedule (init ops d0)).
Proof.
  induction schedule as [|j schedule IH] using rev_ind.
  - apply invariant_init.
  - rewrite run_snoc. by apply invariant_step.
Qed.
End lock_facts.

(** X15. Mutual exclusion: under any interleaving of report, listing and
    clear blocks, while one of them is between acquiring and releasing
    the lock it is the holder of the lock, and every other block is
    before its [with] or has left it. *)
Theorem lock_excludes_others (ops : list Locking.op) (d0 : registry)
    (schedule : list nat) (i j : nat) (a b : Locking.agent) :
  let s := Locking.run schedule (Locking.init ops d0) in
  Locking.agents s !! i = Some a →
  Locking.holds_lock (Locking.pc a) = true →
  Locking.agents s !! j = Some b →
  j ≠ i →
  Locking.lock s = Some i ∧ Locking.holds_lock (Locking.pc b) = false.
Proof.
  intros s Hi Ha Hj Hne.
  destruct (invariant_reachable ops d0 schedule) as [Hl _]. fold s in Hl.
  assert (Locking.lock s = Some i) as Hlock by by apply (Hl i a Hi).
  split; [done|].
  destruct (Locking.holds_lock (Locking.pc b)) eqn:Hb; [|done].
  apply (Hl j b Hj) in Hb. congruence.
Qed.

Lemma lock_excludes_others_witness :
  let ops := [Locking.Report 2 "10.2.1.5" false;
              Locking.Snap (Locking.Digest "12:00");
              Locking.Report 1 "10.1.1.5" false] in
  let s := Locking.run [0; 0; 1; 2; 1]%nat (Locking.init ops ∅) in
  Locking.lock s = Some 0%nat ∧
  Locking.holds_lock
    (Locking.pc {| Locking.code := Locking.Snap (Locking.Digest "12:00");
                   Locking.pc := Locking.Outside;
                   Locking.printed := [] |}) = false.
Proof.
  intros ops s.
  apply (lock_excludes_others ops ∅ [0; 0; 1; 2; 1]%nat 0%nat 1%nat
           {| Locking.code := Locking.Report 2 "10.2.1.5" false;
              Locking.pc := Locking.Tested true;
              Locking.printed := [] |}).
  - vm_compute. reflexivity.
  - reflexivity.
  - vm_compute. reflexivity.
  - done.
Defined.

Section report_block_facts.
Import Locking ReportBlock.
Implicit Types (s : sys) (a : agent) (d : registry) (i j : nat).









End report_block_facts.



Section string_rev_facts.
Implicit Types (s t u : string) (c : ascii).

Lemma str_rev_app_app s t : String.rev_app s t = String.rev s +:+ t.
Proof.
  unfold String.rev. revert t. induction s as [|c s IH]; intros t; [done|].
  cbn [String.rev_app]. rewrite (IH (String c t)), (IH (String c EmptyString)).
  by rewrite str_app_assoc.
Qed.

Lemma str_rev_cons c s : String.rev (String c s) = String.rev s +:+ String c EmptyString.
Proof. unfold String.rev at 1. cbn [String.rev_app]. apply str_rev_app_app. Qed.

Lemma str_rev_app s t : String.rev (s +:+ t) = String.rev t +:+ String.rev s.
Proof.
  induction s as [|c s IH].
  - change (EmptyString +:+ t) with t. by rewrite str_app_nil_r.
  - rewrite str_app_cons, !str_rev_cons, IH. by rewrite str_app_assoc.
Qed.

Lemma str_rev_involutive s : String.rev (String.rev s) = s.
Proof.
  induction s as [|c s IH]; [done|].
  by rewrite str_rev_cons, str_rev_app, IH.
Qed.

Lemma all_chars_app p s t :
  Greppable.all_chars p (s +:+ t) =
  Greppable.all_chars p s && Greppable.all_chars p t.
Proof.
  induction s as [|c s IH]; [done|].
  rewrite str_app_cons. cbn [Greppable.all_chars]. rewrite IH.
  by rewrite andb_assoc.
Qed.

Lemma all_chars_rev p s :
  Greppable.all_chars p (String.rev s) = Greppable.all_chars p s.
Proof.
  induction s as [|c s IH]; [done|].
  rewrite str_rev_cons, all_chars_app, IH. cbn [Greppable.all_chars].
  by rewrite andb_true_r, andb_comm.
Qed.

Lemma all_chars_weaken (p q : ascii → bool) s :
  (∀ c, p c = true → q c = true) →
  Greppable.all_chars p s = true → Greppable.all_chars q s = true.
Proof.
  intros Hpq. induction s as [|c s IH]; [done|].
  cbn [Greppable.all_chars]. intros [Hc Hs]%andb_true_iff.
  by rewrite (Hpq c Hc), IH.
Qed.

Lemma lstrip_head c s :
  PyStr.is_space c = false → PyStr.lstrip (String c s) = String c s.
Proof. intros Hc. cbn [PyStr.lstrip]. by rewrite Hc. Qed.

(** Text that begins and ends with a character that is not white
    space is left as it is. *)
Lemma strip_ends c s c' :
  PyStr.is_space c = false → PyStr.is_space c' = false →
  PyStr.strip (String c s +:+ String c' EmptyString) =
  String c s +:+ String c' EmptyString.
Proof.
  intros Hc Hc'. unfold PyStr.strip. rewrite str_app_cons, lstrip_head by done.
  rewrite <-str_app_cons, str_rev_app.
  change (String.rev (String c' EmptyString)) with (String c' EmptyString).
  rewrite str_app_cons, lstrip_head by done.
  rewrite <-(str_app_cons c' EmptyString). change (String c' EmptyString) with (String.rev (String c' EmptyString)).
  by rewrite <-str_rev_app, str_rev_involutive.
Qed.

Lemma strip_no_space s :
  Greppable.all_chars (λ c, negb (PyStr.is_space c)) s = true →
  PyStr.strip s = s.
Proof.
  intros Hs. unfold PyStr.strip.
  assert (∀ t, Greppable.all_chars (λ c, negb (PyStr.is_space c)) t = true →
               PyStr.lstrip t = t) as Hl.
  { intros [|c t]; [done|]. cbn [Greppable.all_chars].
    intros [Hc%negb_true_iff _]%andb_true_iff. by apply lstrip_head. }
  rewrite (Hl s Hs), Hl by by rewrite all_chars_rev.
  apply str_rev_involutive.
Qed.

Lemma strip_space_l s : PyStr.strip (String " " s) = PyStr.strip s.
Proof. done. Qed.

Lemma strip_space_r s :
  Greppable.all_chars (λ c, negb (PyStr.is_space c)) s = true →
  PyStr.strip (s +:+ " ") = s.
Proof.
  intros Hs. destruct s as [|c s]; [done|].
  pose proof Hs as Hs'. cbn [Greppable.all_chars] in Hs'.
  apply andb_true_iff in Hs' as [Hc%negb_true_iff _].
  unfold PyStr.strip. rewrite str_app_cons, lstrip_head by done.
  rewrite <-str_app_cons, str_rev_app.
  change (String.rev " ") with " ". rewrite str_app_cons.
  change (EmptyString +:+ ?x) with x. cbn [PyStr.lstrip].
  change (PyStr.is_space " ") with true. cbn iota.
  rewrite <-(strip_no_space (String c s)) at 2 by done.
  unfold PyStr.strip. by rewrite lstrip_head.
Qed.
End string_rev_facts.

Section greppable_facts.
Import PyStr Scan Greppable.
Implicit Types (s t u : string) (c : ascii).

Lemma split2_go_cons a b cur c c' s :
  split2_go a b cur (String c (String c' s)) =
  if decide (c = a ∧ c' = b) then cur :: split2_go a b EmptyString s
  else split2_go a b (snoc cur c) (String c' s).
Proof. done. Qed.

Lemma split2_go_none cur s :
  all_chars (λ c, negb (bool_decide (c = ">"%char))) s = true →
  split2_go "-" ">" cur s = [cur +:+ s].
Proof.
  revert cur. induction s as [|c s IH]; intros cur Hs.
  - by rewrite str_app_nil_r.
  - cbn [all_chars] in Hs. apply andb_true_iff in Hs as [Hc Hs].
    destruct s as [|c' s]; [done|].
    rewrite split2_go_cons, decide_False.
    + rewrite (IH _ Hs). by rewrite snoc_app.
    + intros [_ ->]. cbn [all_chars] in Hs.
      by rewrite bool_decide_eq_true_2 in Hs.
Qed.

Lemma split2_go_arrow cur s rest :
  all_chars (λ c, negb (bool_decide (c = ">"%char))) s = true →
  split2_go "-" ">" cur (s +:+ String "-" (String ">" rest)) =
  (cur +:+ s) :: split2_go "-" ">" EmptyString rest.
Proof.
  revert cur. induction s as [|c s IH]; intros cur Hs.
  - change (EmptyString +:+ ?x) with x. cbn [split2_go].
    rewrite decide_True by done. by rewrite str_app_nil_r.
  - cbn [all_chars] in Hs. apply andb_true_iff in Hs as [Hc Hs].
    rewrite str_app_cons.
    destruct (s +:+ String "-" (String ">" rest)) as [|c' s'] eqn:Heq.
    { by destruct s. }
    rewrite split2_go_cons, decide_False.
    + rewrite (IH _ Hs). by rewrite snoc_app.
    + intros [_ ->]. destruct s as [|c2 s]; [done|].
      rewrite str_app_cons in Heq. injection Heq as -> _.
      cbn [all_chars] in Hs. by rewrite bool_decide_eq_true_2 in Hs.
Qed.

Lemma bracketed_brackets s :
  bracketed (String "[" (s +:+ "]")) = Some s.
Proof.
  unfold bracketed. rewrite str_rev_cons, str_rev_app.
  change (String.rev "]") with "]". rewrite !str_app_cons.
  change (EmptyString +:+ ?x) with x. cbn [slice_from].
  by rewrite str_rev_involutive.
Qed.

Lemma split_comma_go_part cur s rest :
  all_chars (λ c, negb (bool_decide (c = ","%char))) s = true →
  split_comma_go cur (s +:+ rest) = split_comma_go (cur +:+ s) rest.
Proof.
  revert cur. induction s as [|c s IH]; intros cur Hs.
  - by rewrite str_app_nil_r.
  - cbn [all_chars] in Hs. apply andb_true_iff in Hs as [Hc Hs].
    rewrite str_app_cons. cbn [split_comma_go].
    rewrite decide_False.
    + rewrite (IH _ Hs). by rewrite snoc_app.
    + intros ->. by rewrite bool_decide_eq_true_2 in Hc.
Qed.

Lemma split_comma_join parts cur :
  parts ≠ [] →
  Forall (λ s, all_chars (λ c, negb (bool_decide (c = ","%char))) s = true)
    parts →
  split_comma_go cur (join "," parts) =
  match parts with
  | [] => []
  | x :: parts' => (cur +:+ x) :: parts'
  end.
Proof.
  intros Hne Hparts. revert cur.
  induction Hparts as [|x parts Hx Hparts IH]; intros cur; [done|].
  destruct parts as [|y parts].
  - cbn [join]. rewrite <-(str_app_nil_r x) at 1.
    rewrite split_comma_go_part by done. done.
  - change (join "," (x :: y :: parts))
      with (x +:+ "," +:+ join "," (y :: parts)).
    rewrite split_comma_go_part by done. rewrite str_app_cons.
    change (EmptyString +:+ ?z) with z. cbn [split_comma_go].
    rewrite decide_True by done. rewrite IH by done. done.
Qed.
End greppable_facts.

Section decimal_facts.
Import PyStr Scan Greppable.
Implicit Types (s t u : string) (c : ascii).

Lemma digit_class c :
  digit c = true →
  is_space c = false ∧ is_linebreak c = false ∧
  c ≠ ","%char ∧ c ≠ ">"%char ∧ c ≠ "-"%char ∧ c ≠ "+"%char.
Proof.
  destruct c as [[] [] [] [] [] [] [] []]; intros H; try done;
    by vm_compute in H.
Qed.

Lemma pretty_N_char_digit (d : N) :
  (d < 10)%N → Ascii.is_nat (pretty_N_char d) = Some (N.to_nat d).
Proof.
  intros Hd.
  assert (d = 0 ∨ d = 1 ∨ d = 2 ∨ d = 3 ∨ d = 4 ∨ d = 5 ∨ d = 6 ∨ d = 7 ∨
          d = 8 ∨ d = 9)%N as H by lia.
  repeat (destruct H as [->|H]; [done|]). by subst d.
Qed.

Lemma pretty_N_go_digits (x : N) :
  ∃ ds (k : Z),
    (∀ s, pretty_N_go x s = ds +:+ s) ∧
    all_chars digit ds = true ∧
    (x = 0%N → ds = EmptyString) ∧
    ((0 < x)%N → ds ≠ EmptyString ∧
       ∀ acc b s, digits acc b (ds +:+ s) = digits (acc * k + Z.of_N x) true s).
Proof.
  induction (N.lt_wf_0 x) as [x _ IH].
  destruct (decide (x = 0%N)) as [->|Hx].
  { exists EmptyString, 1.
    split_and!; [intros s; by rewrite pretty_N_go_0|done|done|lia]. }
  assert (0 < x)%N as Hpos by lia.
  destruct (IH (x `div` 10)%N) as (ds & k & Hgo & Hds & H0 & Hk).
  { apply N.div_lt; lia. }
  assert (x `mod` 10 < 10)%N as Hmod by (apply N.mod_lt; lia).
  pose proof (pretty_N_char_digit (x `mod` 10)%N Hmod) as Hch.
  exists (ds +:+ String (pretty_N_char (x `mod` 10)) EmptyString).
  destruct (decide (x `div` 10 = 0)%N) as [Hdiv|Hdiv].
  - exists 10. rewrite (H0 Hdiv) in *.
    change (EmptyString +:+ ?z) with z in *. split_and!.
    + intros s. rewrite pretty_N_go_step, Hgo by done. done.
    + cbn [all_chars]. unfold digit. rewrite Hch.
      by rewrite bool_decide_eq_true_2.
    + done.
    + intros _. split; [done|]. intros acc b s.
      rewrite str_app_cons. change (EmptyString +:+ ?z) with z.
      cbn [digits]. rewrite Hch. f_equal.
      pose proof (N.div_mod x 10 ltac:(lia)). lia.
  - destruct Hk as [Hne Hk]; [by apply N.neq_0_lt_0|]. exists (10 * k). split_and!.
    + intros s. rewrite pretty_N_go_step, Hgo by done.
      by rewrite str_app_assoc.
    + rewrite all_chars_app, Hds. cbn [all_chars]. unfold digit.
      rewrite Hch. by rewrite bool_decide_eq_true_2.
    + done.
    + intros _. split; [by destruct ds|]. intros acc b s.
      rewrite str_app_assoc, Hk, str_app_cons.
      change (EmptyString +:+ ?z) with z. cbn [digits]. rewrite Hch.
      f_equal. pose proof (N.div_mod x 10 ltac:(lia)). lia.
Qed.

Lemma str_nonneg (p : Z) :
  0 ≤ p →
  str p ≠ EmptyString ∧ all_chars digit (str p) = true ∧
  digits 0 false (str p) = Some p.
Proof.
  intros Hp. unfold str, pretty, pretty_Z.
  destruct p as [|q|q]; [done| |lia].
  unfold pretty, pretty_positive, pretty, pretty_N.
  rewrite decide_False by done.
  destruct (pretty_N_go_digits (N.pos q)) as (ds & k & Hgo & Hds & _ & Hk).
  destruct Hk as [Hne Hk]; [lia|].
  rewrite Hgo, str_app_nil_r. split_and!; [done..|].
  rewrite <-(str_app_nil_r ds), Hk. done.
Qed.

Lemma int_str (p : Z) : 0 ≤ p → int (str p) = Some p.
Proof.
  intros Hp. destruct (str_nonneg p Hp) as (Hne & Hds & Hval).
  unfold int. rewrite strip_no_space.
  2:{ apply (all_chars_weaken digit); [|done].
      intros c Hc. apply digit_class in Hc as [-> _]. done. }
  destruct (str p) as [|c s]; [done|].
  cbn [all_chars] in Hds. apply andb_true_iff in Hds as [Hc _].
  apply digit_class in Hc as (_ & _ & _ & _ & Hm & Hpl).
  rewrite <-Hval. clear -Hm Hpl.
  destruct c as [[] [] [] [] [] [] [] []]; done.
Qed.
End decimal_facts.

Section line_facts.
Import PyStr Scan Greppable.
Implicit Types (s t u : string) (c : ascii) (e : string * list Z).

(** The characters of a port list: digits and commas. *)
Let port_char (c : ascii) : bool := digit c || bool_decide (c = ","%char).

Lemma port_char_class c :
  port_char c = true →
  is_space c = false ∧ is_linebreak c = false ∧ c ≠ ">"%char.
Proof.
  unfold port_char. intros [Hc| ->%bool_decide_eq_true]%orb_true_iff; [|done].
  by apply digit_class in Hc as (? & ? & _ & ? & _).
Qed.

Lemma host_char_class c :
  host_char c = true →
  is_space c = false ∧ is_linebreak c = false ∧ c ≠ ">"%char.
Proof.
  unfold host_char.
  intros [Hs%negb_true_iff Hg%negb_true_iff]%andb_true_iff.
  apply bool_decide_eq_false in Hg. split_and!; [done| |done].
  clear Hg. destruct c as [[] [] [] [] [] [] [] []]; try done;
    by vm_compute in Hs.
Qed.

Lemma join_ports (found : list Z) :
  found ≠ [] → Forall (λ p, 0 ≤ p) found →
  join "," (str <$> found) ≠ EmptyString ∧
  all_chars port_char (join "," (str <$> found)) = true ∧
  mapM int (split_comma (join "," (str <$> found))) = Some found.
Proof.
  intros Hne Hall.
  assert (Forall (λ s, all_chars (λ c, negb (bool_decide (c = ","%char))) s
                       = true) (str <$> found)) as Hparts.
  { apply Forall_fmap. eapply Forall_impl; [exact Hall|].
    intros p Hp. destruct (str_nonneg p Hp) as (_ & Hds & _). cbn.
    apply (all_chars_weaken digit); [|done].
    intros c Hc. apply digit_class in Hc as (_ & _ & Hc & _).
    by rewrite bool_decide_eq_false_2. }
  split_and!.
  - destruct found as [|p found]; [done|].
    apply Forall_cons in Hall as [Hp _].
    destruct (str_nonneg p Hp) as (Hs & _ & _).
    destruct found; cbn [fmap list_fmap join];
      destruct (str p); try done.
  - clear Hne Hparts. induction Hall as [|p l Hp Hall IH]; [reflexivity|].
    destruct (str_nonneg p Hp) as (_ & Hds & _).
    assert (all_chars port_char (str p) = true) as Hpc.
    { apply (all_chars_weaken digit); [|done].
      intros c Hc. unfold port_char. by rewrite Hc. }
    destruct l as [|q l]; [by rewrite fmap_cons|].
    change (join "," (str <$> p :: q :: l))
      with (str p +:+ "," +:+ join "," (str <$> q :: l)).
    rewrite all_chars_app, Hpc, str_app_cons.
    change (EmptyString +:+ ?z) with z. cbn [all_chars]. by rewrite IH.
  - assert (∀ l, Forall (λ p, 0 ≤ p) l → mapM int (str <$> l) = Some l)
      as Hmap.
    { clear. induction 1 as [|q l Hq Hall IH]; [reflexivity|].
      rewrite fmap_cons. cbn [mapM]. rewrite (int_str q Hq). cbn.
      by rewrite IH. }
    unfold split_comma. rewrite split_comma_join by (by destruct found || done).
    destruct found as [|p found]; [done|].
    change (EmptyString +:+ ?z) with z. exact (Hmap (p :: found) Hall).
Qed.

Lemma line_no_linebreak e :
  well_formed e →
  all_chars (λ c, negb (is_linebreak c)) (line e) = true.
Proof.
  intros (_ & Hh & Hne & Hall). unfold line.
  destruct (join_ports e.2 Hne Hall) as (_ & Hp & _).
  rewrite !all_chars_app.
  rewrite (all_chars_weaken host_char _ e.1) by
    (done || intros c Hc; by apply host_char_class in Hc as (_ & -> & _)).
  rewrite (all_chars_weaken port_char _ (join _ _)) by
    (done || intros c Hc; by apply port_char_class in Hc as (_ & -> & _)).
  done.
Qed.

(** How the code takes a line of the scan apart. *)
Lemma line_parts e :
  well_formed e →
  strip (line e) = line e ∧
  split_arrow (line e) =
    [e.1 +:+ " "; " [" +:+ join "," (str <$> e.2) +:+ "]"] ∧
  strip (e.1 +:+ " ") = e.1 ∧
  strip (" [" +:+ join "," (str <$> e.2) +:+ "]") =
    String "[" (join "," (str <$> e.2) +:+ "]").
Proof.
  intros (Hh0 & Hh & Hne & Hall). unfold line.
  destruct (join_ports e.2 Hne Hall) as (_ & Hp & _).
  set (P := join "," (str <$> e.2)) in *.
  assert (all_chars (λ c, negb (is_space c)) e.1 = true) as Hsp.
  { apply (all_chars_weaken host_char); [|done].
    intros c Hc. by apply host_char_class in Hc as (-> & _). }
  assert (all_chars (λ c, negb (bool_decide (c = ">"%char))) e.1 = true)
    as Hgt.
  { apply (all_chars_weaken host_char); [|done].
    intros c Hc. apply host_char_class in Hc as (_ & _ & Hc).
    by rewrite bool_decide_eq_false_2. }
  assert (all_chars (λ c, negb (bool_decide (c = ">"%char))) P = true)
    as Hgt'.
  { apply (all_chars_weaken port_char); [|done].
    intros c Hc. apply port_char_class in Hc as (_ & _ & Hc).
    by rewrite bool_decide_eq_false_2. }
  split_and!.
  - destruct e.1 as [|c h]; [done|].
    cbn [all_chars] in Hsp. apply andb_true_iff in Hsp as [Hc%negb_true_iff _].
    replace (String c h +:+ " -> [" +:+ P +:+ "]")
      with (String c (h +:+ " -> [" +:+ P) +:+ String "]" EmptyString).
    + by apply strip_ends.
    + by rewrite !str_app_cons, !str_app_assoc.
  - unfold split_arrow.
    replace (e.1 +:+ " -> [" +:+ P +:+ "]")
      with ((e.1 +:+ " ") +:+ String "-" (String ">" (" [" +:+ P +:+ "]")))
      by by rewrite str_app_assoc.
    rewrite split2_go_arrow.
    2:{ rewrite all_chars_app, Hgt. done. }
    rewrite split2_go_none.
    2:{ rewrite !all_chars_app, Hgt'. done. }
    done.
  - by apply strip_space_r.
  - rewrite !str_app_cons. change (EmptyString +:+ ?z) with z.
    rewrite strip_space_l.
    replace (String "[" (P +:+ "]"))
      with (String "[" P +:+ String "]" EmptyString) by done.
    by apply strip_ends.
Qed.

Lemma has_arrow_line e : well_formed e → has_arrow (line e) = true.
Proof.
  intros He. destruct (line_parts e He) as (_ & Hsplit & _).
  unfold has_arrow. rewrite Hsplit. done.
Qed.

Lemma parse_ports_line e lines results :
  well_formed e →
  parse_ports (line e :: lines) results =
  parse_ports lines (<[e.1 := merge_sort Z.le e.2]> results).
Proof.
  intros He. pose proof He as (_ & _ & Hne & Hall).
  destruct (line_parts e He) as (Hstrip & Hsplit & Hhost & Hports).
  destruct (join_ports e.2 Hne Hall) as (Hjoin & _ & Hint).
  cbn [parse_ports]. cbv zeta.
  rewrite Hstrip, (has_arrow_line e He), Hsplit, Hhost, Hports.
  rewrite bracketed_brackets, decide_True by done.
  by rewrite Hint.
Qed.

Lemma parse_hosts_line e lines :
  well_formed e → parse_hosts (line e :: lines) = e.1 :: parse_hosts lines.
Proof.
  intros He. destruct (line_parts e He) as (Hstrip & Hsplit & Hhost & _).
  cbn [parse_hosts]. cbv zeta.
  by rewrite Hstrip, (has_arrow_line e He), Hsplit, Hhost.
Qed.

Lemma splitlines_go_line cur s rest :
  all_chars (λ c, negb (is_linebreak c)) s = true →
  splitlines_go cur (s +:+ Snapshot.nl +:+ rest) =
  (cur +:+ s) :: splitlines_go EmptyString rest.
Proof.
  revert cur. induction s as [|c s IH]; intros cur Hs.
  - by rewrite str_app_nil_r.
  - cbn [all_chars] in Hs. apply andb_true_iff in Hs as [Hc%negb_true_iff Hs].
    rewrite str_app_cons. cbn [splitlines_go]. rewrite Hc.
    rewrite (IH _ Hs). by rewrite snoc_app.
Qed.

Lemma splitlines_stdout entries :
  Forall well_formed entries →
  splitlines (stdout entries) = line <$> entries.
Proof.
  unfold splitlines. induction 1 as [|e entries He Hall IH]; [done|].
  cbn [stdout]. rewrite splitlines_go_line by by apply line_no_linebreak.
  by rewrite IH.
Qed.

Lemma parse_ports_stdout entries results :
  Forall well_formed entries →
  parse_ports (line <$> entries) results = record results entries.
Proof.
  intros Hall. revert results.
  induction Hall as [|e entries He Hall IH]; intros results; [done|].
  rewrite fmap_cons, parse_ports_line by done. apply IH.
Qed.

Lemma parse_hosts_stdout entries :
  Forall well_formed entries →
  parse_hosts (line <$> entries) = fst <$> entries.
Proof.
  induction 1 as [|e entries He Hall IH]; [done|].
  rewrite fmap_cons, parse_hosts_line by done. by rewrite IH.
Qed.
End line_facts.

Section scan_parses.
Import Scan Greppable.
Variable run : subprocess.

Lemma scan_hosts_from_parses rustscan_path (k : nat) hosts ports outputs
    results :
  length outputs = length hosts →
  (∀ (j : nat) host entries,
     hosts !! j = Some host → outputs !! j = Some entries →
     Forall well_formed entries ∧
     ∃ stderr, run (k + j)%nat (host_cmd rustscan_path host ports) =
               Completed 0 (stdout entries) stderr) →
  (scan_hosts_from run rustscan_path k hosts ports results).1 =
  record results (concat outputs).
Proof.
  revert k outputs results.
  induction hosts as [|host hosts IH]; intros k [|entries outputs] results
    Hlen Hrun; try done.
  destruct (Hrun O host entries eq_refl eq_refl) as (Hwf & stderr & H0).
  replace (k + 0)%nat with k in H0 by lia.
  cbn [scan_hosts_from]. rewrite H0, decide_True by done.
  rewrite splitlines_stdout, parse_ports_stdout by done.
  specialize (IH (S k) outputs (record results entries)).
  destruct (scan_hosts_from run rustscan_path (S k) hosts ports
              (record results entries)) as [r pr].
  cbn [fst] in *. rewrite IH.
  - cbn [concat]. unfold record. by rewrite foldl_app.
  - by injection Hlen.
  - intros j h es Hj Hes.
    replace (S k + j)%nat with (k + S j)%nat by lia. by apply Hrun.
Qed.
End scan_parses.

(** X17. When every run of the external scan ends with return code 0
    and prints well-formed lines [host -> [p1,p2,...]], [scan_hosts]
    returns the mapping that gives each printed host its ports in
    ascending order, a later line for a host replacing an earlier
    one. *)
Theorem scan_hosts_parses (m : Scan.machine) (run : Scan.subprocess)
    (hosts : list string) (ports : list Z) (rustscan_path : string)
    (outputs : list (list (string * list Z))) :
  Scan.get_rustscan_binary m = Ret rustscan_path →
  length outputs = length hosts →
  (∀ (j : nat) host entries,
     hosts !! j = Some host → outputs !! j = Some entries →
     Forall Greppable.well_formed entries ∧
     ∃ stderr, run j (Scan.host_cmd rustscan_path host ports) =
               Scan.Completed 0 (Greppable.stdout entries) stderr) →
  (Scan.scan_hosts m run hosts ports).1 =
  Ret (Greppable.record ∅ (concat outputs)).
Proof.
  intros Hbin Hlen Hrun. unfold Scan.scan_hosts. rewrite Hbin.
  pose proof (scan_hosts_from_parses run rustscan_path 0 hosts ports outputs
                ∅ Hlen Hrun) as H.
  destruct (Scan.scan_hosts_from run rustscan_path 0 hosts ports ∅).
  cbn [fst] in *. by rewrite H.
Qed.

Lemma scan_hosts_parses_witness :
  let m := {| Scan.system := "Linux"; Scan.binary_exists := true |} in
  let run : Scan.subprocess := λ k cmd,
    Scan.Completed 0
      (Greppable.stdout [("10.5.1.17", [443; 22; 80])]) EmptyString in
  (Scan.scan_hosts m run ["10.5.1.17"] [22; 80; 443]).1 =
  Ret (Greppable.record ∅ [("10.5.1.17", [443; 22; 80])]).
Proof.
  intros m run.
  apply (scan_hosts_parses m run ["10.5.1.17"] [22; 80; 443]
           "scanning/rustscan-linux" [[("10.5.1.17", [443; 22; 80])]]).
  - reflexivity.
  - reflexivity.
  - intros [|j] host entries Hj He; [|done].
    injection Hj as <-. injection He as <-. split.
    + repeat constructor; (done || lia).
    + by exists EmptyString.
Defined.

(** X18. When the external scan of a subnet ends with return code 0 and
    prints well-formed lines [host -> [p1,p2,...]], [scan_subnet]
    returns the printed hosts, in the order of the lines, and prints
    only the command it ran. *)
Theorem scan_subnet_parses (m : Scan.machine) (run : Scan.subprocess)
    (subnet : string) (ports : list Z) (rustscan_path stderr : string)
    (entries : list (string * list Z)) :
  Scan.get_rustscan_binary m = Ret rustscan_path →
  run O (Scan.subnet_cmd rustscan_path subnet ports) =
    Scan.Completed 0 (Greppable.stdout entries) stderr →
  Forall Greppable.well_formed entries →
  Scan.scan_subnet m run subnet ports =
  (Ret (fst <$> entries),
   [Scan.running_line (Scan.subnet_cmd rustscan_path subnet ports)]).
Proof.
  intros Hbin Hrun Hwf. unfold Scan.scan_subnet. rewrite Hbin, Hrun.
  rewrite decide_True by done.
  by rewrite splitlines_stdout, parse_hosts_stdout.
Qed.

Lemma scan_subnet_parses_witness :
  let m := {| Scan.system := "Linux"; Scan.binary_exists := true |} in
  let run : Scan.subprocess := λ k cmd,
    Scan.Completed 0
      (Greppable.stdout [("10.5.1.17", [22; 80]); ("10.5.1.20", [22])])
      EmptyString in
  Scan.scan_subnet m run "10.5.1.0/24" [22; 80] =
  (Ret ["10.5.1.17"; "10.5.1.20"],
   ["Running: scanning/rustscan-linux -a 10.5.1.0/24 -g -p 22,80"]).
Proof.
  intros m run.
  apply (scan_subnet_parses m run "10.5.1.0/24" [22; 80]
           "scanning/rustscan-linux" EmptyString
           [("10.5.1.17", [22; 80]); ("10.5.1.20", [22])]).
  - reflexivity.
  - reflexivity.
  - repeat constructor; (done || lia).
Defined.

Section unformat_returns.
Import PyStr Unformat.

Lemma loop_printed (fuel : nat) host_pattern formatted_string format_string
    (i : nat) u u' printed r :
  loop fuel host_pattern formatted_string format_string i u =
    Some (u', printed, r) →
  (length printed ≤ 1)%nat.
Proof.
  revert i u. induction fuel as [|fuel IH]; intros i u; [done|].
  cbn [loop]. case_decide; [|intros [= _ <- _]; simpl; lia].
  destruct (getitem formatted_string i) as [x|]; [|intros [= _ <- _]; simpl; lia].
  destruct (getitem host_pattern i) as [y|]; [|intros [= _ <- _]; simpl; lia].
  case_decide; [apply IH|].
  destruct (getitem formatted_string _) as [x'|];
    [|intros [= _ <- _]; simpl; lia].
  destruct (inner _ _ _ _ _ _) as [[u2 [[]|e]]|];
    [intros [= _ <- _]; simpl; lia..|done].
Qed.
End unformat_returns.

(** X19. [unformat] returns for every pattern, host and team: its two
    loops end, the inner one at the latest when its index leaves the
    pattern, and no exception leaves it.  It prints at most the
    character it looks for and one error line. *)
Theorem unformat_always_returns (host_pattern formatted_string : string)
    (team : Z) :
  ∃ unformatted_string printed,
    Unformat.unformat host_pattern formatted_string team =
      Some (unformatted_string, printed) ∧
    (length printed ≤ 2)%nat.
Proof.
  unfold Unformat.unformat.
  destruct (loop_total (S (String.length formatted_string)) host_pattern
              formatted_string (str team) 0 EmptyString)
    as [[[u printed] r] Hloop]; [lia|].
  rewrite Hloop. apply loop_printed in Hloop.
  destruct r as [[]|e]; eexists _, _; (split; [done|]);
    rewrite ?length_app; simpl; lia.
Qed.

